(** * qmp-shell: command construction and HMP completion index

    A shallow embedding of the parsing pipeline of [qmp-shell.go]:
    [splitString], [buildQMPCommand], the line wrapping of
    [executeCommand], the completion list built by [NewHMPShell] and the
    completer closure installed by [NewQMPShell] and [NewHMPShell].

    Go strings are modelled by the sequence of code points that
    [for _, c := range s] yields on well-formed UTF-8 text; a rune is a
    [Z] as Go's [rune] is an [int32].  Go's byte-indexed tests used by
    the program ([s[0] == '{'], [len(s) == 0], ASCII cutsets) only look
    at ASCII bytes, which are code points of their own, and [len] is
    expressed through the UTF-8 width of each rune. *)

From Stdlib Require Import ZArith Ascii String Lia.
From stdpp Require Import base option list sorting gmap.

Local Open Scope Z_scope.

Abbreviation rune := Z (only parsing).
Abbreviation gostring := (list Z) (only parsing).

(** A Go string literal with ASCII text. *)
Definition str (s : string) : gostring :=
  map (fun a => Z.of_N (N_of_ascii a)) (list_ascii_of_string s).

(** ** Package [unicode] *)
Module Unicode.

(** A [RangeTable] restricted to stride 1: the inclusive ranges. *)
Definition RangeTable := list (Z * Z).

Definition Is (tab : RangeTable) (r : rune) : bool :=
  existsb (fun '(lo, hi) => (lo <=? r) && (r <=? hi)) tab.

(** [unicode.Quotation_Mark], the table of the Unicode property. *)
Definition Quotation_Mark : RangeTable :=
  [ (0x0022, 0x0022); (0x0027, 0x0027); (0x00ab, 0x00ab); (0x00bb, 0x00bb);
    (0x2018, 0x201f); (0x2039, 0x203a); (0x2e42, 0x2e42); (0x300c, 0x300f);
    (0x301d, 0x301f); (0xfe41, 0xfe44); (0xff02, 0xff02); (0xff07, 0xff07);
    (0xff62, 0xff63) ].

(** [unicode.White_Space]. *)
Definition White_Space : RangeTable :=
  [ (0x0009, 0x000d); (0x0020, 0x0020); (0x0085, 0x0085); (0x00a0, 0x00a0);
    (0x1680, 0x1680); (0x2000, 0x200a); (0x2028, 0x2029); (0x202f, 0x202f);
    (0x205f, 0x205f); (0x3000, 0x3000) ].

(** [unicode.In(r, tab)] with a single table. *)
Definition In (r : rune) (tab : RangeTable) : bool := Is tab r.

(** [unicode.IsSpace]: the Latin-1 switch, then the table. *)
Definition IsSpace (r : rune) : bool :=
  if (0 <=? r) && (r <=? 0xFF) then
    (r =? 9) || (r =? 10) || (r =? 11) || (r =? 12) || (r =? 13)
    || (r =? 32) || (r =? 0x85) || (r =? 0xA0)
  else Is White_Space r.

(** [unicode.ToLower]: ASCII is handled inline; above ASCII Go consults
    [unicode.CaseRanges], which is taken as the parameter [caseLower]
    (the value of [unicode.To(unicode.LowerCase, r)]). *)
Definition ToLower (caseLower : rune -> rune) (r : rune) : rune :=
  if r <=? 0x7F then
    if (65 <=? r) && (r <=? 90) then r + 32 else r
  else caseLower r.

End Unicode.

(** ** Package [unicode/utf8] *)
Module Utf8.
(** [utf8.RuneLen] on the code points of well-formed text. *)
Definition RuneLen (r : rune) : Z :=
  if r <? 0x80 then 1 else if r <? 0x800 then 2 else if r <? 0x10000 then 3 else 4.
End Utf8.

(** [len(s)], the number of bytes of the UTF-8 encoding. *)
Definition len (s : gostring) : Z :=
  fold_right (fun r n => Utf8.RuneLen r + n) 0 s.

(** ** Package [strings] *)
Module Strings.

(** [s[i:j]] where [i] and [j] are positions of runes. *)
Definition slice (s : gostring) (i j : Z) : gostring :=
  take (Z.to_nat (j - i)) (drop (Z.to_nat i) s).

Section FieldsFunc.
(** The predicate handed to [FieldsFunc] by [splitString] is a closure
    over a mutable variable; [St] is the type of what it captures and
    [f] returns the updated capture with its verdict. *)
Context {St : Type}.
Variable f : St -> rune -> St * bool.

(** The first loop of [strings.FieldsFunc]: one call of [f] per rune,
    in order; [start] is negative when no field is open and a closed
    field is recorded as the span [(start, end)]. *)
Fixpoint FieldsFunc_spans (s : gostring) (end_ : Z) (st : St)
    (start : Z) (spans : list (Z * Z)) : Z * list (Z * Z) :=
  match s with
  | [] => (start, spans)
  | r :: s' =>
      let '(st', sep) := f st r in
      if sep then
        if 0 <=? start then
          FieldsFunc_spans s' (end_ + 1) st' (Z.lnot start) (spans ++ [(start, end_)])
        else FieldsFunc_spans s' (end_ + 1) st' start spans
      else
        if start <? 0 then FieldsFunc_spans s' (end_ + 1) st' end_ spans
        else FieldsFunc_spans s' (end_ + 1) st' start spans
  end.

Definition FieldsFunc (st0 : St) (s : gostring) : list gostring :=
  let '(start, spans) := FieldsFunc_spans s 0 st0 (-1) [] in
  (* Last field might end at EOF. *)
  let spans := if 0 <=? start then spans ++ [(start, Z.of_nat (length s))] else spans in
  map (fun '(i, j) => slice s i j) spans.
End FieldsFunc.

(** [strings.Fields]: the fields between runs of [unicode.IsSpace]. *)
Definition Fields (s : gostring) : list gostring :=
  FieldsFunc (fun (_ : unit) r => (tt, Unicode.IsSpace r)) tt s.

(** [strings.HasPrefix]. *)
Fixpoint HasPrefix (s prefix : gostring) : bool :=
  match prefix, s with
  | [], _ => true
  | p :: prefix', c :: s' => (c =? p) && HasPrefix s' prefix'
  | _ :: _, [] => false
  end.

(** [strings.TrimLeft] and [strings.TrimRight] with an ASCII cutset. *)
Definition inCutset (cutset : gostring) (r : rune) : bool :=
  existsb (Z.eqb r) cutset.

Fixpoint TrimLeft (s cutset : gostring) : gostring :=
  match s with
  | [] => []
  | r :: s' => if inCutset cutset r then TrimLeft s' cutset else s
  end.

Definition TrimRight (s cutset : gostring) : gostring :=
  rev (TrimLeft (rev s) cutset).

(** [strings.Trim]: the right end is trimmed first, then the left. *)
Definition Trim (s cutset : gostring) : gostring :=
  TrimLeft (TrimRight s cutset) cutset.

(** [strings.ToLower]. *)
Definition ToLower (caseLower : rune -> rune) (s : gostring) : gostring :=
  map (Unicode.ToLower caseLower) s.

(** [strings.Split(s, sep)] for a non-empty [sep]: [skip] counts the
    runes of a separator occurrence still to be dropped, [cur] is the
    piece being read, reversed. *)
Fixpoint Split_from (sep : gostring) (s : gostring) (skip : nat)
    (cur : gostring) : list gostring :=
  match s with
  | [] => [rev cur]
  | r :: s' =>
      match skip with
      | S k => Split_from sep s' k cur
      | O =>
          if HasPrefix s sep
          then rev cur :: Split_from sep s' (Nat.pred (length sep)) []
          else Split_from sep s' O (r :: cur)
      end
  end.

Definition Split (s sep : gostring) : list gostring := Split_from sep s O [].

(** [strings.Index(s, substr) != -1]. *)
Fixpoint Contains (s substr : gostring) : bool :=
  HasPrefix s substr ||
  match s with
  | [] => false
  | _ :: s' => Contains s' substr
  end.

End Strings.

(** ** [splitString] *)

(** The closure [f] of [splitString]; its captured variable [lastQuote]
    is passed in and returned. *)
Definition splitString_f (sep : rune) (lastQuote : rune) (c : rune) : rune * bool :=
  if c =? lastQuote then (0, false)
  else if negb (lastQuote =? 0) then (lastQuote, false)
  else if Unicode.In c Unicode.Quotation_Mark then (c, false)
  else (lastQuote, if sep =? 32 then Unicode.IsSpace c else c =? sep).

Definition splitString (s : gostring) (sep : rune) : list gostring :=
  Strings.FieldsFunc (splitString_f sep) 0 s.


(** ** Package [strconv] *)
Module Strconv.

Inductive NumError := ErrSyntax | ErrRange.

Definition maxUint64 : Z := 2 ^ 64 - 1.

(** The loop of [ParseUint(s, 10, 64)] over the bytes of [s]; [n] is a
    [uint64], its arithmetic wraps modulo [2^64]. *)
Fixpoint ParseUint_loop (s : gostring) (n : Z) : Z * option NumError :=
  match s with
  | [] => (n, None)
  | c :: s' =>
      let cutoff := maxUint64 / 10 + 1 in
      let maxVal := maxUint64 in
      let lower := Z.lor c 32 in
      let digit :=
        if (48 <=? c) && (c <=? 57) then Some (c - 48)
        else if (97 <=? lower) && (lower <=? 122) then Some (lower - 97 + 10)
        else None in
      match digit with
      | None => (0, Some ErrSyntax)
      | Some d =>
          if d >=? 10 then (0, Some ErrSyntax)
          else if n >=? cutoff then (maxVal, Some ErrRange)
          else
            let n := (n * 10) mod 2 ^ 64 in
            let n1 := (n + d) mod 2 ^ 64 in
            if (n1 <? n) || (n1 >? maxVal) then (maxVal, Some ErrRange)
            else ParseUint_loop s' n1
      end
  end.

Definition ParseUint (s : gostring) : Z * option NumError :=
  match s with
  | [] => (0, Some ErrSyntax)
  | _ => ParseUint_loop s 0
  end.

(** [int64(x)]: the two's complement reading of the low 64 bits. *)
Definition int64 (x : Z) : Z := (x + 2 ^ 63) mod 2 ^ 64 - 2 ^ 63.

(** [ParseInt(s, 10, 64)]. *)
Definition ParseInt (s : gostring) : Z * option NumError :=
  match s with
  | [] => (0, Some ErrSyntax)
  | c :: s' =>
      let '(neg, s1) :=
        if c =? 43 then (false, s')
        else if c =? 45 then (true, s')
        else (false, s) in
      let '(un, err) := ParseUint s1 in
      match err with
      | Some ErrSyntax => (0, Some ErrSyntax)
      | _ =>
          let cutoff := 2 ^ 63 in
          if negb neg && (un >=? cutoff) then (int64 (cutoff - 1), Some ErrRange)
          else if neg && (un >? cutoff) then (int64 (- int64 cutoff), Some ErrRange)
          else
            let n := int64 un in
            (if neg then int64 (- n) else n, None)
      end
  end.

End Strconv.

(** ** Results and standard output *)

(** The errors [buildQMPCommand] returns: the package variable
    [ErrBadCommandFormat] and the values made by [fmt.Errorf]. *)
Inductive error :=
  | ErrBadCommandFormat
  | Errorf (msg : gostring).

(** How a call ends: with a value, with a non-nil [error] (and a nil
    result), or in a run-time panic. *)
Inductive result (A : Type) :=
  | Ok (a : A)
  | Err (e : error)
  | Panic.
Arguments Ok {A} a.
Arguments Err {A} e.
Arguments Panic {A}.

(** A computation that writes to standard output: the texts written, in
    order, and how it ended. *)
Definition M (A : Type) : Type := list gostring * result A.

Definition ret {A} (a : A) : M A := ([], Ok a).
Definition fail {A} (e : error) : M A := ([], Err e).
Definition panic {A} : M A := ([], Panic).

Definition bind {A B} (x : M A) (k : A -> M B) : M B :=
  match x with
  | (out, Ok a) => let '(out', r) := k a in (out ++ out', r)
  | (out, Err e) => (out, Err e)
  | (out, Panic) => (out, Panic)
  end.

Notation "x <- c1 ;; c2" := (bind c1 (fun x => c2))
  (at level 100, c1 at next level, right associativity).

(** [fmt.Println(s)]. *)
Definition Println (s : gostring) : M unit := ([s ++ [10]], Ok tt).

Definition stdout {A} (x : M A) : list gostring := fst x.
Definition outcome {A} (x : M A) : result A := snd x.

(** A [for ... range] loop whose body may return or panic. *)
Fixpoint forRange {A S} (body : S -> A -> M S) (l : list A) (s : S) : M S :=
  match l with
  | [] => ret s
  | a :: l' => s' <- body s a ;; forRange body l' s'
  end.

(** String equality [a == b]. *)
Definition streq (a b : gostring) : bool := bool_decide (a = b).

(** ** The shell *)

Section Shell.

(** [encoding/json]: the decoded tree and [json.Unmarshal] into an
    [interface{}], which gives the tree or the text of the error. *)
Variable JSON : Type.
Variable json_Unmarshal : gostring -> JSON + gostring.

(** [unicode.To(unicode.LowerCase, r)] above ASCII. *)
Variable caseLower : rune -> rune.

(** What [buildQMPCommand] stores in a [map[string]interface{}]: a
    [bool], an [int64], a decoded JSON value or a [string]. *)
Inductive Value :=
  | VBool (b : bool)
  | VInt (d : Z)
  | VJSON (value : JSON)
  | VString (s : gostring).

(** [type QMPCommand qmp.Command]. *)
Record QMPCommand := mkQMPCommand {
  Name : gostring;
  Arguments : gmap gostring Value
}.

(** The [switch] of [buildQMPCommand] on [parts[1]] after [strings.Trim];
    each branch of the source stores its value with [m[parts[0]] = ...],
    which [buildQMPCommand_arg] does with the value returned here.
    [parts[1][0]] is out of range on the empty string. *)
Definition coerceValue (raw : gostring) : M Value :=
  if streq (Strings.ToLower caseLower raw) (str "true") then ret (VBool true)
  else if streq (Strings.ToLower caseLower raw) (str "false") then ret (VBool false)
  else
    match raw with
    | [] => panic
    | c :: _ =>
        if (c =? 123) || (c =? 91) then
          _ <- Println raw ;;
          match json_Unmarshal raw with
          | inr err => fail (Errorf (str "JSON parsing error: " ++ err))
          | inl value => ret (VJSON value)
          end
        else
          match Strconv.ParseInt raw with
          | (d, None) => ret (VInt d)
          | (_, Some _) => ret (VString raw)
          end
    end.

(** The body of the loop of [buildQMPCommand] over [cmdargs[1:]]. *)
Definition buildQMPCommand_arg (m : gmap gostring Value) (arg : gostring)
    : M (gmap gostring Value) :=
  let parts := splitString arg 61 in
  match parts with
  | [key; value] =>
      if len value =? 0 then fail ErrBadCommandFormat
      else
        let value := Strings.Trim value [34; 39] in
        v <- coerceValue value ;;
        ret (<[key := v]> m)
  | _ => fail ErrBadCommandFormat
  end.

Definition buildQMPCommand (cmdline : gostring) : M QMPCommand :=
  let cmdargs := splitString cmdline 32 in
  match cmdargs with
  | [] => fail ErrBadCommandFormat
  | name :: args =>
      m <- forRange buildQMPCommand_arg args ∅ ;;
      ret (mkQMPCommand name m)
  end.

(** [executeCommand] up to the command it hands to [monitor.Run]. *)
Definition executeCommand_build (isHMP : bool) (cmdline : gostring) : M QMPCommand :=
  let cmdline :=
    if isHMP
    then str "human-monitor-command command-line='" ++ cmdline ++ str "'"
    else cmdline in
  buildQMPCommand cmdline.

(** The completer closure of [NewQMPShell] and [NewHMPShell] over
    [cmdlist]. *)
Fixpoint completer (cmdlist : list gostring) (line : gostring) : list gostring :=
  match cmdlist with
  | [] => []
  | n :: cmdlist' =>
      if Strings.HasPrefix n (Strings.ToLower caseLower line)
      then n :: completer cmdlist' line
      else completer cmdlist' line
  end.

End Shell.

Arguments VBool {JSON} b.
Arguments VInt {JSON} d.
Arguments VJSON {JSON} value.
Arguments VString {JSON} s.
Arguments Name {JSON} _.
Arguments Arguments {JSON} _.
Arguments mkQMPCommand {JSON} _ _.

(** ** The completion list of [NewHMPShell] *)

(** Go's [<=] on strings; on well-formed UTF-8 the order of the bytes is
    the order of the code points. *)
Fixpoint string_leb (a b : gostring) : bool :=
  match a, b with
  | [], _ => true
  | _ :: _, [] => false
  | x :: a', y :: b' => (x <? y) || ((x =? y) && string_leb a' b')
  end.

Definition string_le (a b : gostring) : Prop := string_leb a b = true.

#[global] Instance string_le_dec a b : Decision (string_le a b) :=
  bool_eq_dec (string_leb a b) true.

(** [sort.Strings]: the order is total and equal strings are the same
    string, so the sorted list does not depend on the algorithm. *)
Definition sort_Strings (l : list gostring) : list gostring :=
  merge_sort string_le l.

(** The completion list of [NewQMPShell]: the names of the reply to
    [query-commands], appended one by one, then sorted. *)
Definition NewQMPShell_cmdlist (qmpCommands : list gostring) : list gostring :=
  sort_Strings (fold_left (fun cmdlist name => cmdlist ++ [name]) qmpCommands []).

(** The body of the loop over the lines of the reply to [help]. *)
Definition NewHMPShell_help (cmdlist : list gostring) (line : gostring)
    : M (list gostring) :=
  match line with
  | [] => ret cmdlist
  | c :: _ =>
      if negb (negb (c =? 91) && negb (c =? 9)) then ret cmdlist
      else
        (* Drop arguments and help text *)
        match Strings.Fields line with
        | [] => panic
        | name :: _ =>
            if streq name (str "info") then ret cmdlist
            else
              name <-
                (if Strings.Contains line (str "|") then
                   match Strings.Split name (str "|") with
                   | [] => panic
                   | nn0 :: nn' =>
                       if len nn0 =? 1 then
                         match nn' with
                         | [] => panic
                         | nn1 :: _ => ret nn1
                         end
                       else ret nn0
                   end
                 else ret name) ;;
              ret (cmdlist ++ [name; str "help " ++ name])
        end
  end.

(** The body of the loop over the lines of the reply to [info]. *)
Definition NewHMPShell_info (cmdlist : list gostring) (line : gostring)
    : M (list gostring) :=
  if negb ((0 <? len line) && (2 <=? Z.of_nat (length (Strings.Fields line))))
  then ret cmdlist
  else
    match Strings.Fields line with
    | _ :: topic :: _ => ret (cmdlist ++ [str "info " ++ topic])
    | _ => panic
    end.

(** [cmdlist] as [NewHMPShell] leaves it for the completer, from the two
    replies of the monitor. *)
Definition NewHMPShell_cmdlist (help info : gostring) : M (list gostring) :=
  cmdlist <- forRange NewHMPShell_help (Strings.Split help [13; 10]) [] ;;
  cmdlist <- forRange NewHMPShell_info (Strings.Split info [13; 10]) cmdlist ;;
  ret (sort_Strings cmdlist).

(** ** The tokenizer as a two-state machine *)

(** [Normal], or inside a quoted span with its closing mark. *)
Inductive QuoteState :=
  | Normal
  | InsideQuote (q : rune).

(** One character: the next state, and whether the character ends the
    current token (otherwise it is kept in the token's text). *)
Definition tokenizer_step (isSeparator : rune -> bool) (st : QuoteState) (c : rune)
    : QuoteState * bool :=
  match st with
  | Normal =>
      if Unicode.Is Unicode.Quotation_Mark c then (InsideQuote c, false)
      else (Normal, isSeparator c)
  | InsideQuote q =>
      if c =? q then (Normal, false) else (InsideQuote q, false)
  end.

(** A finished token is kept unless it is empty. *)
Definition emit (cur : gostring) : list gostring :=
  match cur with
  | [] => []
  | _ => [cur]
  end.

Fixpoint tokens_from (isSeparator : rune -> bool) (st : QuoteState) (cur : gostring)
    (s : gostring) : list gostring :=
  match s with
  | [] => emit cur
  | c :: s' =>
      let '(st', ends) := tokenizer_step isSeparator st c in
      if ends then emit cur ++ tokens_from isSeparator st' [] s'
      else tokens_from isSeparator st' (cur ++ [c]) s'
  end.

Definition tokenize (isSeparator : rune -> bool) (s : gostring) : list gostring :=
  tokens_from isSeparator Normal [] s.

(** The value of [lastQuote] in each state. *)
Definition lastQuote_of (st : QuoteState) : rune :=
  match st with
  | Normal => 0
  | InsideQuote q => q
  end.

(** [FieldsFunc] with the open field carried as text instead of as the
    position of its start. *)
Fixpoint fields_from {St : Type} (f : St -> rune -> St * bool) (st : St)
    (cur : gostring) (s : gostring) : list gostring :=
  match s with
  | [] => emit cur
  | c :: s' =>
      let '(st', sep) := f st c in
      if sep then emit cur ++ fields_from f st' [] s'
      else fields_from f st' (cur ++ [c]) s'
  end.

(** The test [splitString] applies outside a quoted span. *)
Definition separator_test (sep : rune) (c : rune) : bool :=
  if sep =? 32 then Unicode.IsSpace c else c =? sep.

Definition quote_ok (st : QuoteState) : Prop :=
  match st with
  | Normal => True
  | InsideQuote q => q <> 0
  end.

(** ** Decimal literals *)

Definition is_digit (c : rune) : Prop := 48 <= c <= 57.

(** The number read by appending the decimal digits [ds] to [n]. *)
Definition digits_from (n : Z) (ds : gostring) : Z :=
  fold_left (fun n c => 10 * n + (c - 48)) ds n.

(** [s] is a decimal literal of the 64-bit integer [z]: one of the signs
    of [signs] (the empty sign among them), then one digit or more. *)
Definition int_literal (signs : list gostring) (s : gostring) (z : Z) : Prop :=
  exists sign ds,
    s = sign ++ ds /\ sign ∈ signs /\ ds <> [] /\ Forall is_digit ds /\
    z = (if bool_decide (sign = [45]) then - digits_from 0 ds else digits_from 0 ds) /\
    - 2 ^ 63 <= z <= 2 ^ 63 - 1.

(** [ParseInt] once the sign is taken off: [neg] and the rest [s1]. *)
Definition ParseInt_unsigned (neg : bool) (s1 : gostring) : Z * option Strconv.NumError :=
  let '(un, err) := Strconv.ParseUint s1 in
  match err with
  | Some Strconv.ErrSyntax => (0, Some Strconv.ErrSyntax)
  | _ =>
      let cutoff := 2 ^ 63 in
      if negb neg && (un >=? cutoff) then (Strconv.int64 (cutoff - 1), Some Strconv.ErrRange)
      else if neg && (un >? cutoff)
      then (Strconv.int64 (- Strconv.int64 cutoff), Some Strconv.ErrRange)
      else
        let n := Strconv.int64 un in
        (if neg then Strconv.int64 (- n) else n, None)
  end.

(** ** Quote stripping *)

(** The ASCII double and single quote, the cutset of [buildQMPCommand]. *)
Definition is_quote (c : rune) : Prop := c = 34 \/ c = 39.

(** Stripping one layer: the value without its first and last character
    when both are the same ASCII quote, the value itself otherwise. *)
Definition strip_one_layer (v : gostring) : gostring :=
  match v with
  | q :: rest =>
      if (q =? 34) || (q =? 39) then
        match rev rest with
        | q' :: inner => if q' =? q then rev inner else v
        | [] => v
        end
      else v
  | [] => v
  end.

(** ** The coercion rule and well-formed tokens *)

Section Rules.

Variable JSON : Type.
Variable json_Unmarshal : gostring -> JSON + gostring.
Variable caseLower : rune -> rune.

(** Equal up to the case of the letters. *)
Definition ci_equal (a b : gostring) : Prop :=
  Strings.ToLower caseLower a = Strings.ToLower caseLower b.

Definition looks_boolean (raw : gostring) : Prop :=
  ci_equal raw (str "true") \/ ci_equal raw (str "false").

(** The first character is [{] or [[]. *)
Definition looks_structured (raw : gostring) : Prop :=
  exists c rest, raw = c :: rest /\ (c = 123 \/ c = 91).

(** The ordered rule: what a raw value becomes, the integers being the
    decimal literals with a sign of [signs]. *)
Inductive coerces (signs : list gostring) (raw : gostring) : result (Value JSON) -> Prop :=
  | coerces_true :
      ci_equal raw (str "true") ->
      coerces signs raw (Ok (VBool true))
  | coerces_false :
      ~ ci_equal raw (str "true") -> ci_equal raw (str "false") ->
      coerces signs raw (Ok (VBool false))
  | coerces_structured value :
      ~ looks_boolean raw -> looks_structured raw ->
      json_Unmarshal raw = inl value ->
      coerces signs raw (Ok (VJSON value))
  | coerces_invalid msg :
      ~ looks_boolean raw -> looks_structured raw ->
      json_Unmarshal raw = inr msg ->
      coerces signs raw (Err (Errorf (str "JSON parsing error: " ++ msg)))
  | coerces_integer z :
      ~ looks_boolean raw -> ~ looks_structured raw ->
      int_literal signs raw z ->
      coerces signs raw (Ok (VInt z))
  | coerces_string :
      ~ looks_boolean raw -> ~ looks_structured raw ->
      (forall z, ~ int_literal signs raw z) ->
      coerces signs raw (Ok (VString raw)).

(** The token [arg] splits into [key] and a value that, its quotes
    trimmed, is coerced to [v]. *)
Definition arg_coerces (arg key : gostring) (v : Value JSON) : Prop :=
  exists value,
    splitString arg 61 = [key; value] /\
    outcome (coerceValue JSON json_Unmarshal caseLower (Strings.Trim value [34; 39])) = Ok v.

(** [m[key] = v]. *)
Definition store (m : gmap gostring (Value JSON)) (kv : gostring * Value JSON)
    : gmap gostring (Value JSON) :=
  <[kv.1 := kv.2]> m.

End Rules.

Arguments store {JSON} m kv.

(** ** Completion entries *)

(** What one line of the reply to [help] adds, and one line of the reply
    to [info]. *)
Definition help_entries (line : gostring) : M (list gostring) := NewHMPShell_help [] line.
Definition info_entries (line : gostring) : M (list gostring) := NewHMPShell_info [] line.

(** The alias rule for a first field [a|b]: the first form, unless it
    is one byte long (a single character below U+0080), then the
    second. *)
Definition one_byte (a : gostring) : bool :=
  match a with
  | [c] => c <? 128
  | _ => false
  end.

Definition chosen_alias (a b : gostring) : gostring := if one_byte a then b else a.

(** The partial input matches the entry by prefix, up to case. *)
Definition ci_has_prefix (caseLower : rune -> rune) (entry input : gostring) : Prop :=
  exists rest, Strings.ToLower caseLower entry = Strings.ToLower caseLower input ++ rest.

(** ** Instances for the examples *)

(** A decoder that accepts only the text
    [{}] and answers every other text as [encoding/json] answers a
    truncated one, and a case table that changes no letter. *)
Inductive example_JSON := EmptyObject.

Definition example_Unmarshal (s : gostring) : example_JSON + gostring :=
  if streq s (str "{}") then inl EmptyObject
  else inr (str "unexpected end of JSON input").

Definition example_caseLower (r : rune) : rune := r.

(** The ASCII double quote, for the texts of the examples. *)
Definition DQ : gostring := [34].

(** ** Scanning a text for its quoted spans *)

(** The state after the text [s] when every character of it is kept,
    [None] when one of them ends a token. *)
Fixpoint scan_state (isSeparator : rune -> bool) (st : QuoteState) (s : gostring)
    : option QuoteState :=
  match s with
  | [] => Some st
  | c :: s' =>
      let '(st', ends) := tokenizer_step isSeparator st c in
      if ends then None else scan_state isSeparator st' s'
  end.

(** The state after the text [s], separators included. *)
Definition quote_state_after (isSeparator : rune -> bool) (st : QuoteState) (s : gostring)
    : QuoteState :=
  fold_left (fun st c => fst (tokenizer_step isSeparator st c)) s st.

(** Every quoted span of [s] is closed. *)
Definition quotes_closed (s : gostring) : Prop :=
  quote_state_after Unicode.IsSpace Normal s = Normal.

(** ** [executeCommand] with its monitor *)

Section Execute.

Variable JSON : Type.
Variable json_Unmarshal : gostring -> JSON + gostring.
Variable caseLower : rune -> rune.

(** The reply that [monitor.Run] stores through [&res], or its error;
    [fmt.Sprintf("%s", res)]; and [json.MarshalIndent(res, "", "    ")]. *)
Variable Reply : Type.
Variable monitor_Run : QMPCommand JSON -> Reply + error.
Variable Sprintf_s : Reply -> gostring.
Variable json_MarshalIndent : Reply -> gostring + error.

(** What a call of [executeCommand] does: the texts written to standard
    output, the commands handed to [monitor.Run], and the string or the
    error returned. *)
Record Execution := mkExecution {
  written : list gostring;
  sent : list (QMPCommand JSON);
  returned : result gostring
}.

Definition executeCommand (isHMP : bool) (cmdline : gostring) : Execution :=
  let '(out, built) := executeCommand_build JSON json_Unmarshal caseLower isHMP cmdline in
  match built with
  | Err err => mkExecution out [] (Err err)
  | Panic => mkExecution out [] Panic
  | Ok cmd =>
      match monitor_Run cmd with
      | inr err => mkExecution out [cmd] (Err err)
      | inl res =>
          if streq (Name cmd) (str "human-monitor-command")
          then mkExecution out [cmd] (Ok (Sprintf_s res))
          else
            match json_MarshalIndent res with
            | inl strB => mkExecution out [cmd] (Ok strB)
            | inr _ => mkExecution out [cmd] (Ok [])
            end
      end
  end.

End Execute.

Arguments written {JSON} _.
Arguments sent {JSON} _.
Arguments returned {JSON} _.

(** No quotation mark and no [=]: the text of a plain key or value. *)
Definition plain_text (s : gostring) : Prop :=
  Forall (fun c => Unicode.Is Unicode.Quotation_Mark c = false /\ c <> 61) s.

(** The two entries of a command, and the entry of a status topic. *)
Definition command_entries (name : gostring) : list gostring := [name; str "help " ++ name].
Definition topic_entry (topic : gostring) : gostring := str "info " ++ topic.

(** ** [Serve] *)

(** The text [fmt.Println(err)] writes for an error, without its line
    feed. *)
Definition Error_text (e : error) : gostring :=
  match e with
  | ErrBadCommandFormat =>
      str "command format: <command-name>  [arg-name1=arg1] ... [arg-nameN=argN]"
  | Errorf msg => msg
  end.

(** What [s.line.Prompt] returns: a line with a nil error,
    [liner.ErrPromptAborted], or another error. *)
Inductive Prompted :=
  | PromptLine (cmdline : gostring)
  | PromptAborted
  | PromptFailed.

(** How far [Serve] got on the prompts it was given: it is back at the
    prompt, it returned, or it stopped in a panic. *)
Inductive ServeStatus :=
  | Prompting
  | Returned
  | Panicked.

Section Serve.

Variable JSON : Type.
Variable json_Unmarshal : gostring -> JSON + gostring.
Variable caseLower : rune -> rune.
Variable Reply : Type.
Variable Sprintf_s : Reply -> gostring.
Variable json_MarshalIndent : Reply -> gostring + error.

(** An event of the monitor: its [Timestamp.Seconds], a [uint64], and
    the line that [Serve] prints for it with [fmt.Printf]. *)
Variable Event : Type.
Variable Event_Seconds : Event -> Z.
Variable Printf_event : Event -> gostring.

(** The monitor as it answers at one turn of the loop: [monitor.Run],
    and [monitor.FindEvents("", ts)] with its [found] flag. *)
Record Monitor := mkMonitor {
  Run : QMPCommand JSON -> Reply + error;
  FindEvents : Z -> list Event * bool
}.

(** What [Serve] has done so far: the texts written to standard output,
    the texts logged, the lines given to [AppendHistory], the commands
    handed to the monitor, and the variable [ts]. *)
Record Served := mkServed {
  printed : list gostring;
  logged : list gostring;
  history : list gostring;
  commands : list (QMPCommand JSON);
  ts : Z
}.

(** The loop over the events found. *)
Definition Serve_events (events : list Event) (st : Served) : Served :=
  fold_left
    (fun st e =>
       mkServed (printed st ++ [Printf_event e]) (logged st) (history st) (commands st)
         ((Event_Seconds e + 1) mod 2 ^ 64))
    events st.

(** The loop of [Serve], one prompt after the other; each prompt comes
    with the monitor as it answers at that turn. *)
Fixpoint Serve_loop (isHMP : bool) (script : list (Prompted * Monitor)) (st : Served)
    : Served * ServeStatus :=
  match script with
  | [] => (st, Prompting)
  | (PromptLine cmdline, monitor) :: script' =>
      if len cmdline =? 0 then
        let '(events, found) := FindEvents monitor (ts st) in
        Serve_loop isHMP script' (if found then Serve_events events st else st)
      else
        let e := executeCommand JSON json_Unmarshal caseLower Reply (Run monitor)
                   Sprintf_s json_MarshalIndent isHMP cmdline in
        let st1 := mkServed (printed st ++ written e) (logged st)
                     (history st ++ [cmdline]) (commands st ++ sent e) (ts st) in
        match returned e with
        | Ok res =>
            Serve_loop isHMP script'
              (mkServed (printed st1 ++ [res ++ [10]]) (logged st1) (history st1)
                 (commands st1) (ts st1))
        | Err err =>
            Serve_loop isHMP script'
              (mkServed (printed st1 ++ [Error_text err ++ [10]]) (logged st1) (history st1)
                 (commands st1) (ts st1))
        | Panic => (st1, Panicked)
        end
  | (PromptAborted, _) :: _ =>
      (mkServed (printed st) (logged st ++ [str "Aborted"]) (history st) (commands st) (ts st),
       Returned)
  | (PromptFailed, _) :: _ =>
      (mkServed (printed st ++ [[10]]) (logged st) (history st) (commands st) (ts st),
       Returned)
  end.

Definition Serve (isHMP : bool) (banner qemuVer : gostring) (script : list (Prompted * Monitor))
    : Served * ServeStatus :=
  Serve_loop isHMP script
    (mkServed [banner ++ [10]; str "Connected to QEMU " ++ qemuVer ++ [10]; [10]] [] [] [] 0).

(** The lines of a script, in order. *)
Definition prompted_lines (script : list (Prompted * Monitor)) : list gostring :=
  flat_map (fun pm => match fst pm with PromptLine l => [l] | _ => [] end) script.

(** Every prompt of the script is a line, and none is a line on which
    building the command panics. *)
Definition lines_without_panic (isHMP : bool) (script : list (Prompted * Monitor)) : Prop :=
  Forall (fun pm =>
            exists l, fst pm = PromptLine l /\
                      outcome (executeCommand_build JSON json_Unmarshal caseLower isHMP l)
                      <> Panic) script.

End Serve.

Arguments printed {JSON} _.
Arguments logged {JSON} _.
Arguments history {JSON} _.
Arguments commands {JSON} _.
Arguments ts {JSON} _.
Arguments Run {JSON Reply Event} _.
Arguments FindEvents {JSON Reply Event} _.
Arguments mkMonitor {JSON Reply Event} _ _.
Arguments prompted_lines {JSON Reply Event} script.

(** ** [main] when standard input is not a terminal *)

(** [bufio.Reader.ReadString(delim)] on an input that ends: the text up
    to and including the first [delim], or all that is left with the
    error [io.EOF] (the flag) when there is none. *)
Fixpoint ReadString (input : gostring) (delim : rune) : gostring * bool :=
  match input with
  | [] => ([], true)
  | c :: input' =>
      if c =? delim then ([c], false)
      else let '(s, err) := ReadString input' delim in (c :: s, err)
  end.

(** How the program ends: [os.Exit] and [Fatalln] with their code, or a
    panic. *)
Inductive Exit :=
| ExitCode (code : Z)
| ExitPanic.

(** The prefix of the logger [Error], which writes to standard output. *)
Definition Error_prefix : gostring := str "qmp_shell error: ".

Section Main.

Variable JSON : Type.
Variable json_Unmarshal : gostring -> JSON + gostring.
Variable caseLower : rune -> rune.
Variable Reply : Type.
Variable monitor_Run : QMPCommand JSON -> Reply + error.
Variable Sprintf_s : Reply -> gostring.
Variable json_MarshalIndent : Reply -> gostring + error.

(** What the run has written to standard output, the commands handed to
    the monitor, and how it ended. *)
Record Piped := mkPiped {
  piped_printed : list gostring;
  piped_sent : list (QMPCommand JSON);
  piped_exit : Exit
}.

(** The branch of [main] taken when standard input is not a terminal,
    once the shell is connected. *)
Definition main_piped (hmpMode : bool) (stdin : gostring) : Piped :=
  let '(cmdline, err) := ReadString stdin 10 in
  if err then
    mkPiped [Error_prefix ++ str "cannot read command from stdin: EOF" ++ [10]] [] (ExitCode 1)
  else
    let e := executeCommand JSON json_Unmarshal caseLower Reply monitor_Run
               Sprintf_s json_MarshalIndent hmpMode cmdline in
    match returned e with
    | Ok res => mkPiped (written e ++ [res ++ [10]]) (sent e) (ExitCode 0)
    | Err err =>
        mkPiped (written e ++ [Error_prefix ++ Error_text err ++ [10]]) (sent e) (ExitCode 1)
    | Panic => mkPiped (written e) (sent e) ExitPanic
    end.

End Main.

Arguments piped_printed {JSON} _.
Arguments piped_sent {JSON} _.
Arguments piped_exit {JSON} _.

(** A monitor for the examples: it answers every command with the name
    of the command and has no event. *)
Definition example_Monitor : Monitor example_JSON gostring Z :=
  mkMonitor (fun cmd => inl (Name cmd)) (fun _ => ([], false)).

Definition example_Serve (isHMP : bool) (script : list (Prompted * Monitor example_JSON gostring Z))
    : Served example_JSON * ServeStatus :=
  Serve example_JSON example_Unmarshal example_caseLower gostring (fun res => res)
    (fun res => inl res) Z (fun e => e) (fun _ => str "Received QMP Event")
    isHMP (str "Welcome to the QMP low-level shell") (str "2.5.0") script.

(** * Facts *)

(** ** [strings.FieldsFunc] *)

Lemma slice_drop_prefix (pre post : gostring) (start : Z) :
  0 <= start -> (Z.to_nat start <= length pre)%nat ->
  Strings.slice (pre ++ post) start (Z.of_nat (length pre)) = drop (Z.to_nat start) pre.
Proof.
  intros H0 Hle. unfold Strings.slice.
  rewrite drop_app_le by exact Hle.
  replace (Z.to_nat (Z.of_nat (length pre) - start))
    with (length (drop (Z.to_nat start) pre)) by (rewrite length_drop; lia).
  apply take_app_length.
Qed.

Lemma emit_nonempty (cur : gostring) : cur <> [] -> emit cur = [cur].
Proof. destruct cur; [congruence | reflexivity]. Qed.

Lemma FieldsFunc_spans_fields {St : Type} (f : St -> rune -> St * bool) :
  forall (s pre : gostring) (st : St) (start : Z) (spans : list (Z * Z)) (cur : gostring),
    (start < 0 /\ cur = []) \/
    (0 <= start /\ (Z.to_nat start < length pre)%nat /\ cur = drop (Z.to_nat start) pre) ->
    forall start' spans',
      Strings.FieldsFunc_spans f s (Z.of_nat (length pre)) st start spans = (start', spans') ->
      map (fun '(i, j) => Strings.slice (pre ++ s) i j)
          (if 0 <=? start' then spans' ++ [(start', Z.of_nat (length (pre ++ s)))] else spans')
      = map (fun '(i, j) => Strings.slice (pre ++ s) i j) spans ++ fields_from f st cur s.
Proof.
  induction s as [|r s IH]; intros pre st start spans cur Hinv start' spans' Hrun.
  - simpl in Hrun. injection Hrun as <- <-. rewrite app_nil_r. simpl.
    destruct Hinv as [[Hneg ->] | (Hpos & Hlt & ->)].
    + destruct (Z.leb_spec 0 start); [lia |]. simpl. now rewrite app_nil_r.
    + destruct (Z.leb_spec 0 start); [| lia].
      rewrite map_app. simpl. f_equal.
      rewrite emit_nonempty.
      * f_equal. rewrite <- (app_nil_r pre) at 1.
        apply slice_drop_prefix; lia.
      * intros E. apply (f_equal length) in E. rewrite length_drop in E. simpl in E. lia.
  - simpl in Hrun. simpl fields_from.
    destruct (f st r) as [st' sep].
    assert (Hlen : Z.of_nat (length (pre ++ [r])) = Z.of_nat (length pre) + 1)
      by (rewrite length_app; simpl; lia).
    assert (Hw : pre ++ r :: s = (pre ++ [r]) ++ s) by (now rewrite <- app_assoc).
    rewrite <- Hlen in Hrun. rewrite Hw.
    destruct sep.
    + destruct Hinv as [[Hneg ->] | (Hpos & Hlt & ->)].
      * destruct (Z.leb_spec 0 start); [lia |].
        rewrite (IH (pre ++ [r]) st' start spans [] (or_introl (conj Hneg eq_refl)) _ _ Hrun).
        reflexivity.
      * destruct (Z.leb_spec 0 start); [| lia].
        assert (Hlnot : Z.lnot start < 0) by (unfold Z.lnot; lia).
        rewrite (IH (pre ++ [r]) st' _ _ [] (or_introl (conj Hlnot eq_refl)) _ _ Hrun).
        rewrite map_app. simpl. rewrite <- app_assoc. f_equal.
        rewrite emit_nonempty.
        -- simpl. f_equal. rewrite <- Hw. apply slice_drop_prefix; lia.
        -- intros E. apply (f_equal length) in E. rewrite length_drop in E. simpl in E. lia.
    + destruct Hinv as [[Hneg ->] | (Hpos & Hlt & ->)].
      * destruct (Z.ltb_spec start 0); [| lia].
        eapply IH; [| exact Hrun].
        right. split; [lia |]. rewrite Nat2Z.id. split.
        -- rewrite length_app. simpl. lia.
        -- rewrite drop_app_length. reflexivity.
      * destruct (Z.ltb_spec start 0); [lia |].
        eapply IH; [| exact Hrun].
        right. split; [lia |]. split.
        -- rewrite length_app. simpl. lia.
        -- rewrite drop_app_le by lia. reflexivity.
Qed.

Lemma FieldsFunc_fields {St : Type} (f : St -> rune -> St * bool) (st0 : St) (s : gostring) :
  Strings.FieldsFunc f st0 s = fields_from f st0 [] s.
Proof.
  unfold Strings.FieldsFunc.
  destruct (Strings.FieldsFunc_spans f s 0 st0 (-1) []) as [start spans] eqn:Hrun.
  pose proof (FieldsFunc_spans_fields f s [] st0 (-1) [] []) as H.
  simpl in H. apply H in Hrun; [exact Hrun |].
  left. split; [lia | reflexivity].
Qed.

(** ** [splitString] and the two-state tokenizer *)

Lemma splitString_f_step (sep : rune) (st : QuoteState) (c : rune) :
  sep <> 0 -> quote_ok st ->
  splitString_f sep (lastQuote_of st) c
  = (lastQuote_of (fst (tokenizer_step (separator_test sep) st c)),
     snd (tokenizer_step (separator_test sep) st c))
  /\ quote_ok (fst (tokenizer_step (separator_test sep) st c)).
Proof.
  intros Hsep Hok. unfold splitString_f, tokenizer_step, Unicode.In.
  destruct st as [|q]; cbn [lastQuote_of].
  - destruct (Z.eqb_spec c 0) as [-> | Hc].
    + assert (Hz : separator_test sep 0 = false).
      { unfold separator_test. destruct (Z.eqb_spec sep 32); [reflexivity |].
        destruct (Z.eqb_spec 0 sep); [congruence | reflexivity]. }
      change (Unicode.Is Unicode.Quotation_Mark 0) with false. cbn iota.
      rewrite Hz. split; [reflexivity | exact I].
    + generalize (Unicode.Is Unicode.Quotation_Mark c). intros [|].
      * split; [reflexivity | exact Hc].
      * split; [reflexivity | exact I].
  - cbn [quote_ok] in Hok. destruct (Z.eqb_spec c q).
    + split; [reflexivity | exact I].
    + destruct (Z.eqb_spec q 0); [contradiction |]. split; [reflexivity | exact Hok].
Qed.

Lemma fields_from_tokens (sep : rune) :
  sep <> 0 ->
  forall (s : gostring) (st : QuoteState) (cur : gostring),
    quote_ok st ->
    fields_from (splitString_f sep) (lastQuote_of st) cur s
    = tokens_from (separator_test sep) st cur s.
Proof.
  intros Hsep. induction s as [|c s IH]; intros st cur Hok; [reflexivity |].
  simpl. destruct (splitString_f_step sep st c Hsep Hok) as [-> Hok'].
  destruct (tokenizer_step (separator_test sep) st c) as [st' ends]. simpl in *.
  destruct ends; rewrite IH by exact Hok'; reflexivity.
Qed.

Lemma splitString_tokenize (s : gostring) (sep : rune) :
  sep <> 0 -> splitString s sep = tokenize (separator_test sep) s.
Proof.
  intros Hsep. unfold splitString, tokenize.
  rewrite FieldsFunc_fields.
  exact (fields_from_tokens sep Hsep s Normal [] I).
Qed.

Lemma tokens_from_nonempty (isSeparator : rune -> bool) (s : gostring) :
  forall st cur, Forall (fun t => t <> []) (tokens_from isSeparator st cur s).
Proof.
  induction s as [|c s IH]; intros st cur; simpl.
  - destruct cur; simpl; [constructor | constructor; [discriminate | constructor]].
  - destruct (tokenizer_step isSeparator st c) as [st' ends].
    destruct ends; [| apply IH].
    apply Forall_app. split; [| apply IH].
    destruct cur; simpl; [constructor | constructor; [discriminate | constructor]].
Qed.

Lemma splitString_nonempty (s : gostring) (sep : rune) :
  sep <> 0 -> Forall (fun t => t <> []) (splitString s sep).
Proof.
  intros Hsep. rewrite splitString_tokenize by exact Hsep. apply tokens_from_nonempty.
Qed.

(** C5, as amended: on a space [splitString] is the two-state tokenizer
    whose separators are the characters of [unicode.IsSpace] (space, tab,
    line feed, ...), on ['='] it is the same tokenizer with ['='] as the
    only separator; in both, empty tokens are dropped, any quotation mark
    opens a span that only the same code point closes, and the marks stay
    in the token. *)
Theorem splitString_is_tokenizer :
  (forall s : gostring, splitString s 32 = tokenize Unicode.IsSpace s) /\
  (forall s : gostring, splitString s 61 = tokenize (fun c => c =? 61) s).
Proof.
  split; intros s.
  - rewrite splitString_tokenize by discriminate. reflexivity.
  - rewrite splitString_tokenize by discriminate. reflexivity.
Qed.

(** C5 as stated fails on a tab: with the space as separator the token
    [a<TAB>b] is cut at the tab, which is not the separator. *)
Lemma splitString_cuts_at_tab :
  splitString [97; 9; 98] 32 = [[97]; [98]] /\
  tokenize (fun c => c =? 32) [97; 9; 98] = [[97; 9; 98]].
Proof. split; vm_compute; reflexivity. Qed.

(** ** [strconv.ParseInt] and decimal literals *)

Lemma digits_from_ge (ds : gostring) :
  forall n, 0 <= n -> Forall is_digit ds -> n <= digits_from n ds.
Proof.
  induction ds as [|c ds IH]; intros n Hn Hds; simpl; [lia |].
  inversion Hds as [|? ? Hc Hds']; subst. unfold is_digit in Hc.
  etransitivity; [| apply IH; [lia | exact Hds']]. lia.
Qed.

Lemma digits_from_mono (ds : gostring) :
  forall n m, n <= m -> digits_from n ds <= digits_from m ds.
Proof.
  induction ds as [|c ds IH]; intros n m Hnm; simpl; [exact Hnm |].
  apply IH. lia.
Qed.

Lemma ParseUint_loop_digit (c : rune) (s : gostring) (n : Z) :
  is_digit c -> 0 <= n <= Strconv.maxUint64 ->
  Strconv.ParseUint_loop (c :: s) n =
    if 10 * n + (c - 48) <=? Strconv.maxUint64
    then Strconv.ParseUint_loop s (10 * n + (c - 48))
    else (Strconv.maxUint64, Some Strconv.ErrRange).
Proof.
  unfold is_digit, Strconv.maxUint64. intros Hc Hn.
  cbn [Strconv.ParseUint_loop]. cbv zeta.
  replace ((48 <=? c) && (c <=? 57)) with true by (symmetry; apply andb_true_iff; lia).
  replace (c - 48 >=? 10) with false by lia.
  unfold Strconv.maxUint64.
  change (2 ^ 64) with 18446744073709551616 in *.
  change ((18446744073709551616 - 1) `div` 10 + 1) with 1844674407370955162.
  change (18446744073709551616 - 1) with 18446744073709551615 in *.
  destruct (Z.geb_spec n 1844674407370955162) as [Hcut | Hcut].
  - destruct (Z.leb_spec (10 * n + (c - 48)) 18446744073709551615); [lia | reflexivity].
  - rewrite (Z.mod_small (n * 10)) by lia.
    destruct (Z.leb_spec (10 * n + (c - 48)) 18446744073709551615) as [Hfit | Hover].
    + rewrite (Z.mod_small (n * 10 + (c - 48))) by lia.
      replace ((n * 10 + (c - 48) <? n * 10) || (n * 10 + (c - 48) >? 18446744073709551615))
        with false by (symmetry; apply orb_false_iff; lia).
      f_equal. lia.
    + assert (Hwrap : (n * 10 + (c - 48)) mod 18446744073709551616
                      = n * 10 + (c - 48) - 18446744073709551616).
      { symmetry. apply (Z.mod_unique _ _ 1); lia. }
      rewrite Hwrap.
      replace (n * 10 + (c - 48) - 18446744073709551616 <? n * 10) with true by lia.
      reflexivity.
Qed.

Lemma ParseUint_loop_nondigit (c : rune) (s : gostring) (n : Z) :
  ~ is_digit c -> Strconv.ParseUint_loop (c :: s) n = (0, Some Strconv.ErrSyntax).
Proof.
  unfold is_digit. intros Hc. cbn [Strconv.ParseUint_loop]. cbv zeta.
  replace ((48 <=? c) && (c <=? 57)) with false by (symmetry; apply andb_false_iff; lia).
  destruct ((97 <=? Z.lor c 32) && (Z.lor c 32 <=? 122)) eqn:Hletter; [| reflexivity].
  apply andb_true_iff in Hletter.
  replace (Z.lor c 32 - 97 + 10 >=? 10) with true by lia. reflexivity.
Qed.

Lemma is_digit_dec (c : rune) : {is_digit c} + {~ is_digit c}.
Proof.
  unfold is_digit.
  destruct (Z_le_dec 48 c); [destruct (Z_le_dec c 57) |]; [left | right | right]; lia.
Qed.

(** The loop succeeds exactly on digits whose number fits a [uint64]. *)
Lemma ParseUint_loop_spec (s : gostring) :
  forall n v, 0 <= n <= Strconv.maxUint64 ->
    Strconv.ParseUint_loop s n = (v, None) <->
    Forall is_digit s /\ digits_from n s <= Strconv.maxUint64 /\ v = digits_from n s.
Proof.
  induction s as [|c s IH]; intros n v Hn.
  - simpl. split.
    + intros [= <-]. repeat split; [constructor | lia].
    + intros (_ & _ & ->). reflexivity.
  - destruct (is_digit_dec c) as [Hc | Hc].
    + rewrite ParseUint_loop_digit by assumption.
      change (digits_from n (c :: s)) with (digits_from (10 * n + (c - 48)) s).
      destruct (Z.leb_spec (10 * n + (c - 48)) Strconv.maxUint64) as [Hfit | Hover].
      * unfold is_digit in Hc. rewrite IH by lia. split.
        -- intros (Hs & Hle & ->). split; [constructor; assumption |]. split; [assumption | reflexivity].
        -- intros (Hs & Hle & ->). inversion Hs; subst. split; [assumption |]. split; [assumption | reflexivity].
      * split; [discriminate |]. intros (Hs & Hle & _). exfalso.
        inversion Hs as [|? ? _ Hs']; subst.
        pose proof (digits_from_ge s (10 * n + (c - 48))) as Hge.
        unfold is_digit in Hc. specialize (Hge ltac:(lia) Hs'). lia.
    + rewrite ParseUint_loop_nondigit by assumption. split; [discriminate |].
      intros (Hs & _). inversion Hs; subst. contradiction.
Qed.

Lemma ParseUint_loop_error (s : gostring) :
  forall n, 0 <= n <= Strconv.maxUint64 ->
    forall v e, Strconv.ParseUint_loop s n = (v, Some e) ->
      e = Strconv.ErrSyntax \/ v = Strconv.maxUint64.
Proof.
  induction s as [|c s IH]; intros n Hn v e; [discriminate |].
  destruct (is_digit_dec c) as [Hc | Hc].
  - rewrite ParseUint_loop_digit by assumption.
    destruct (Z.leb_spec (10 * n + (c - 48)) Strconv.maxUint64).
    + unfold is_digit in Hc. apply IH. lia.
    + intros [= <- <-]. right. reflexivity.
  - rewrite ParseUint_loop_nondigit by assumption. intros [= <- <-]. left. reflexivity.
Qed.

Lemma ParseUint_spec (s : gostring) (v : Z) :
  Strconv.ParseUint s = (v, None) <->
  s <> [] /\ Forall is_digit s /\ digits_from 0 s <= Strconv.maxUint64 /\ v = digits_from 0 s.
Proof.
  destruct s as [|c s].
  - simpl. split; [discriminate | intros [H _]; congruence].
  - change (Strconv.ParseUint (c :: s)) with (Strconv.ParseUint_loop (c :: s) 0).
    rewrite ParseUint_loop_spec by (unfold Strconv.maxUint64; lia).
    split; [intros H; split; [discriminate | exact H] | intros [_ H]; exact H].
Qed.

Lemma ParseUint_error (s : gostring) (v : Z) (e : Strconv.NumError) :
  Strconv.ParseUint s = (v, Some e) -> e = Strconv.ErrSyntax \/ v = Strconv.maxUint64.
Proof.
  destruct s as [|c s].
  - intros [= <- <-]. left. reflexivity.
  - apply ParseUint_loop_error. unfold Strconv.maxUint64. lia.
Qed.

Lemma ParseInt_sign (c : rune) (s' : gostring) :
  Strconv.ParseInt (c :: s') =
    if c =? 43 then ParseInt_unsigned false s'
    else if c =? 45 then ParseInt_unsigned true s'
    else ParseInt_unsigned false (c :: s').
Proof.
  unfold Strconv.ParseInt, ParseInt_unsigned.
  destruct (c =? 43); [reflexivity |]. destruct (c =? 45); reflexivity.
Qed.

Lemma int64_small (x : Z) : - 2 ^ 63 <= x < 2 ^ 63 -> Strconv.int64 x = x.
Proof.
  intros Hx. unfold Strconv.int64.
  change (2 ^ 64) with 18446744073709551616. change (2 ^ 63) with 9223372036854775808 in *.
  rewrite Z.mod_small by lia. lia.
Qed.

Lemma ParseInt_unsigned_spec (neg : bool) (s1 : gostring) (z : Z) :
  ParseInt_unsigned neg s1 = (z, None) <->
  s1 <> [] /\ Forall is_digit s1 /\
  z = (if neg then - digits_from 0 s1 else digits_from 0 s1) /\
  - 2 ^ 63 <= z <= 2 ^ 63 - 1.
Proof.
  unfold ParseInt_unsigned.
  destruct (Strconv.ParseUint s1) as [un err] eqn:HU.
  assert (Hfit : s1 <> [] -> Forall is_digit s1 ->
                 digits_from 0 s1 <= 2 ^ 63 -> err = None /\ un = digits_from 0 s1).
  { intros Hne Hds Hle.
    assert (HU' : Strconv.ParseUint s1 = (digits_from 0 s1, None)).
    { apply ParseUint_spec. repeat split; try assumption.
      unfold Strconv.maxUint64. change (2 ^ 64) with 18446744073709551616.
      change (2 ^ 63) with 9223372036854775808 in Hle. lia. }
    rewrite HU' in HU. injection HU as <- <-. split; reflexivity. }
  assert (Hrange : forall d, z = (if neg then - d else d) -> 0 <= d ->
                   - 2 ^ 63 <= z <= 2 ^ 63 - 1 -> d <= 2 ^ 63)
    by (intros d -> Hd; destruct neg; lia).
  destruct err as [[|]|].
  - split; [discriminate |]. intros (Hne & Hds & Hz & Hr). exfalso.
    destruct (Hfit Hne Hds) as [E _]; [| discriminate].
    apply (Hrange _ Hz); [apply digits_from_ge; [lia | assumption] | exact Hr].
  - destruct (ParseUint_error _ _ _ HU) as [E | ->]; [discriminate |].
    unfold Strconv.maxUint64. cbv zeta.
    change (2 ^ 64 - 1 >=? 2 ^ 63) with true. change (2 ^ 64 - 1 >? 2 ^ 63) with true.
    destruct neg; simpl negb; cbn [andb].
    + split; [discriminate |]. intros (Hne & Hds & Hz & Hr). exfalso.
      destruct (Hfit Hne Hds) as [E _]; [| discriminate].
      apply (Hrange _ Hz); [apply digits_from_ge; [lia | assumption] | exact Hr].
    + split; [discriminate |]. intros (Hne & Hds & Hz & Hr). exfalso.
      destruct (Hfit Hne Hds) as [E _]; [| discriminate].
      apply (Hrange _ Hz); [apply digits_from_ge; [lia | assumption] | exact Hr].
  - apply ParseUint_spec in HU. destruct HU as (Hne & Hds & Hmax & ->).
    pose proof (digits_from_ge s1 0 ltac:(lia) Hds) as Hd0.
    set (d := digits_from 0 s1) in *. cbv zeta.
    change (2 ^ 63) with 9223372036854775808 in *.
    destruct neg; simpl negb; cbn [andb].
    + destruct (Z.gtb_spec d 9223372036854775808) as [Hbig | Hok].
      * split; [discriminate |]. intros (_ & _ & -> & Hr). lia.
      * assert (Hn : Strconv.int64 (- Strconv.int64 d) = - d).
        { destruct (Z.eq_dec d 9223372036854775808) as [-> | Hlt].
          - vm_compute. reflexivity.
          - rewrite (int64_small d) by (change (2 ^ 63) with 9223372036854775808; lia).
            apply int64_small. change (2 ^ 63) with 9223372036854775808. lia. }
        rewrite Hn. split.
        -- intros [= <-]. repeat split; try assumption; lia.
        -- intros (_ & _ & -> & _). reflexivity.
    + destruct (Z.geb_spec d 9223372036854775808) as [Hbig | Hok].
      * split; [discriminate |]. intros (_ & _ & -> & Hr). lia.
      * rewrite int64_small by (change (2 ^ 63) with 9223372036854775808; lia). split.
        -- intros [= <-]. repeat split; try assumption; lia.
        -- intros (_ & _ & -> & _). reflexivity.
Qed.

(** [ParseInt(s, 10, 64)] succeeds exactly on the decimal literals of the
    64-bit integers, with an optional sign that may be [+] as well as [-]. *)
Lemma ParseInt_spec (s : gostring) (z : Z) :
  Strconv.ParseInt s = (z, None) <-> int_literal [[]; [43]; [45]] s z.
Proof.
  unfold int_literal. split.
  - destruct s as [|c s']; [discriminate |].
    rewrite ParseInt_sign.
    destruct (Z.eqb_spec c 43) as [-> | H43]; [| destruct (Z.eqb_spec c 45) as [-> | H45]];
      intros H; apply ParseInt_unsigned_spec in H; destruct H as (Hne & Hds & Hz & Hr).
    + exists [43], s'. split; [reflexivity |]. split; [apply list_elem_of_In; simpl; tauto |].
      split; [exact Hne |]. split; [exact Hds |]. split; [| exact Hr].
      case_bool_decide; [discriminate | exact Hz].
    + exists [45], s'. split; [reflexivity |]. split; [apply list_elem_of_In; simpl; tauto |].
      split; [exact Hne |]. split; [exact Hds |]. split; [| exact Hr].
      case_bool_decide; [exact Hz | congruence].
    + exists [], (c :: s'). split; [reflexivity |]. split; [apply list_elem_of_In; simpl; tauto |].
      split; [exact Hne |]. split; [exact Hds |]. split; [| exact Hr].
      case_bool_decide; [discriminate | exact Hz].
  - intros (sign & ds & -> & Hsign & Hne & Hds & Hz & Hr).
    assert (Hcases : sign = [] \/ sign = [43] \/ sign = [45])
      by (apply list_elem_of_In in Hsign; simpl in Hsign; intuition congruence).
    destruct Hcases as [-> | [-> | ->]]; case_bool_decide; try discriminate; try congruence.
    + destruct ds as [|c ds']; [congruence |]. simpl app.
      rewrite ParseInt_sign.
      assert (Hc : is_digit c) by (inversion Hds; assumption). unfold is_digit in Hc.
      destruct (Z.eqb_spec c 43); [lia |]. destruct (Z.eqb_spec c 45); [lia |].
      apply ParseInt_unsigned_spec. repeat split; try assumption; lia.
    + simpl app. rewrite ParseInt_sign. simpl.
      apply ParseInt_unsigned_spec. repeat split; try assumption; lia.
    + simpl app. rewrite ParseInt_sign. simpl.
      apply ParseInt_unsigned_spec. repeat split; try assumption; lia.
Qed.

(** ** The coercion rule *)

Section CoercionRule.

Variable JSON : Type.
Variable json_Unmarshal : gostring -> JSON + gostring.
Variable caseLower : rune -> rune.

Local Abbreviation coerces' := (coerces JSON json_Unmarshal caseLower).
Local Abbreviation looks_boolean' := (looks_boolean caseLower).
Local Abbreviation ci_equal' := (ci_equal caseLower).

Lemma streq_true (a b : gostring) : streq a b = true <-> a = b.
Proof. unfold streq. apply bool_decide_eq_true. Qed.

Lemma streq_false (a b : gostring) : streq a b = false <-> a <> b.
Proof. unfold streq. apply bool_decide_eq_false. Qed.

Lemma ToLower_true : Strings.ToLower caseLower (str "true") = str "true".
Proof. reflexivity. Qed.

Lemma ToLower_false : Strings.ToLower caseLower (str "false") = str "false".
Proof. reflexivity. Qed.

Lemma looks_structured_head (c : rune) (rest : gostring) :
  looks_structured (c :: rest) <-> (c =? 123) || (c =? 91) = true.
Proof.
  unfold looks_structured. rewrite orb_true_iff, !Z.eqb_eq. split.
  - intros (c' & rest' & [= <- <-] & H). exact H.
  - intros H. exists c, rest. split; [reflexivity | exact H].
Qed.

(** What [coerceValue] returns on a non-empty value, branch by branch. *)
Lemma coerceValue_outcome (raw : gostring) :
  raw <> [] ->
  coerces' [[]; [43]; [45]] raw (outcome (coerceValue JSON json_Unmarshal caseLower raw)).
Proof.
  intros Hne. unfold coerceValue.
  destruct (streq (Strings.ToLower caseLower raw) (str "true")) eqn:Ht.
  { apply streq_true in Ht. apply coerces_true. unfold ci_equal. now rewrite ToLower_true. }
  apply streq_false in Ht.
  destruct (streq (Strings.ToLower caseLower raw) (str "false")) eqn:Hf.
  { apply streq_true in Hf. apply coerces_false; unfold ci_equal.
    - now rewrite ToLower_true.
    - now rewrite ToLower_false. }
  apply streq_false in Hf.
  assert (Hnb : ~ looks_boolean' raw).
  { unfold looks_boolean, ci_equal. rewrite ToLower_true, ToLower_false. tauto. }
  destruct raw as [|c rest]; [congruence |].
  destruct ((c =? 123) || (c =? 91)) eqn:Hs.
  - apply (proj2 (looks_structured_head c rest)) in Hs.
    unfold bind, Println.
    destruct (json_Unmarshal (c :: rest)) as [value | msg] eqn:Hj; simpl.
    + now apply coerces_structured.
    + now apply coerces_invalid.
  - assert (Hns : ~ looks_structured (c :: rest))
      by (rewrite looks_structured_head, Hs; discriminate).
    destruct (Strconv.ParseInt (c :: rest)) as [d [e|]] eqn:Hp; simpl.
    + apply coerces_string; try assumption.
      intros z Hz. apply ParseInt_spec in Hz. congruence.
    + apply coerces_integer; try assumption. now apply ParseInt_spec.
Qed.

Lemma digits_literal_unique (signs : list gostring) (s : gostring) (z z' : Z) :
  signs ⊆ [[]; [43]; [45]] ->
  int_literal signs s z -> int_literal signs s z' -> z = z'.
Proof.
  intros Hsub H H'.
  assert (Hw : forall x, int_literal signs s x -> int_literal [[]; [43]; [45]] s x).
  { intros x (sign & ds & ? & ? & ?). exists sign, ds. repeat split; try tauto.
    now apply Hsub. }
  apply Hw, ParseInt_spec in H. apply Hw, ParseInt_spec in H'. congruence.
Qed.

(** The rule is a function of the raw value. *)
Lemma coerces_functional (signs : list gostring) (raw : gostring) (r r' : result (Value JSON)) :
  signs ⊆ [[]; [43]; [45]] ->
  coerces' signs raw r -> coerces' signs raw r' -> r = r'.
Proof.
  intros Hsub H H'.
  assert (Hex : ~ (ci_equal' raw (str "true") /\ ci_equal' raw (str "false"))).
  { unfold ci_equal. rewrite ToLower_true, ToLower_false. intros [-> [=]]. }
  destruct H; destruct H'; unfold looks_boolean in *;
    try reflexivity; try tauto; try congruence;
    try (exfalso;
         match goal with
         | Hn : forall z, ~ int_literal _ _ z, Hi : int_literal _ _ _ |- _ => exact (Hn _ Hi)
         end).
  do 2 f_equal. eapply digits_literal_unique; eassumption.
Qed.

(** C1, as amended: on every non-empty raw value [coerceValue] returns
    what the ordered rule gives (true/false up to case, then [{] or [[]
    parsed as JSON with the parser's message in the error, then a
    decimal 64-bit integer with an optional [+] or [-], else the text
    itself), and nothing else. *)
Theorem coerceValue_rule (raw : gostring) (r : result (Value JSON)) :
  raw <> [] ->
  (outcome (coerceValue JSON json_Unmarshal caseLower raw) = r
   <-> coerces' [[]; [43]; [45]] raw r).
Proof.
  intros Hne. split.
  - intros <-. now apply coerceValue_outcome.
  - intros H. eapply coerces_functional; [reflexivity | | exact H].
    now apply coerceValue_outcome.
Qed.

(** The empty value is not covered: [parts[1][0]] panics. *)
Lemma coerceValue_empty :
  coerceValue JSON json_Unmarshal caseLower [] = ([], Panic).
Proof. reflexivity. Qed.

End CoercionRule.

(** C1 at the value [42]: the integer 42. *)
Lemma coerceValue_rule_witness :
  str "42" <> [] /\
  coerces example_JSON example_Unmarshal example_caseLower
    [[]; [43]; [45]] (str "42") (Ok (VInt 42)).
Proof.
  split; [discriminate |].
  apply (coerceValue_rule example_JSON example_Unmarshal example_caseLower
           (str "42") (Ok (VInt 42))); [discriminate | reflexivity].
Defined.

(** C1 as stated fails on a leading [+]: the rule with [-] as the only
    sign keeps [+5] as text, [coerceValue] makes it the integer 5. *)
Lemma coerceValue_plus_sign :
  (forall JSON json_Unmarshal caseLower,
     outcome (coerceValue JSON json_Unmarshal caseLower (str "+5")) = Ok (VInt 5)) /\
  (forall JSON json_Unmarshal caseLower,
     coerces JSON json_Unmarshal caseLower [[]; [45]] (str "+5") (Ok (VString (str "+5")))).
Proof.
  split; intros JSON json_Unmarshal caseLower; [reflexivity |].
  apply coerces_string.
  - unfold looks_boolean, ci_equal. intros [H | H]; discriminate H.
  - intros (c & rest & [= <- <-] & [H | H]); discriminate H.
  - intros z (sign & ds & Hs & Hsign & Hne & Hds & _).
    apply list_elem_of_In in Hsign. simpl in Hsign.
    destruct Hsign as [<- | [<- | []]].
    + simpl in Hs. subst ds. inversion Hds as [|? ? Hc _]. unfold is_digit in Hc. lia.
    + discriminate Hs.
Qed.

(** ** Quote stripping *)

Lemma inCutset_quotes (c : rune) : Strings.inCutset [34; 39] c = true <-> is_quote c.
Proof.
  unfold Strings.inCutset, is_quote. simpl.
  rewrite !orb_true_iff, !Z.eqb_eq. intuition congruence.
Qed.

Lemma TrimLeft_spec (cutset s : gostring) :
  exists l,
    s = l ++ Strings.TrimLeft s cutset /\
    Forall (fun c => Strings.inCutset cutset c = true) l /\
    (forall c rest, Strings.TrimLeft s cutset = c :: rest -> Strings.inCutset cutset c = false).
Proof.
  induction s as [|c s (l & Hs & Hl & Hhead)]; simpl.
  - exists []. repeat split; [constructor | discriminate].
  - destruct (Strings.inCutset cutset c) eqn:Hc.
    + exists (c :: l). split; [simpl; congruence |]. split; [constructor; assumption | exact Hhead].
    + exists []. split; [reflexivity |]. split; [constructor |].
      intros c' rest [= <- <-]. exact Hc.
Qed.

Lemma TrimLeft_suffix_last (cutset s : gostring) (front : gostring) (c : rune) :
  Strings.TrimLeft s cutset = front ++ [c] -> exists front', s = front' ++ [c].
Proof.
  destruct (TrimLeft_spec cutset s) as (l & Hs & _). intros E.
  exists (l ++ front). rewrite Hs at 1. rewrite E. now rewrite app_assoc.
Qed.

(** [strings.Trim] removes exactly the cutset characters at both ends. *)
Lemma Trim_spec (cutset s : gostring) :
  exists l r,
    s = l ++ Strings.Trim s cutset ++ r /\
    Forall (fun c => Strings.inCutset cutset c = true) l /\
    Forall (fun c => Strings.inCutset cutset c = true) r /\
    (forall c rest, Strings.Trim s cutset = c :: rest -> Strings.inCutset cutset c = false) /\
    (forall c front, Strings.Trim s cutset = front ++ [c] -> Strings.inCutset cutset c = false).
Proof.
  unfold Strings.Trim, Strings.TrimRight.
  destruct (TrimLeft_spec cutset (rev s)) as (r' & Hr & Hr' & Hlast).
  set (t := Strings.TrimLeft (rev s) cutset) in *.
  destruct (TrimLeft_spec cutset (rev t)) as (l & Hl & Hl' & Hhead).
  exists l, (rev r'). split; [| split; [exact Hl' | split; [| split; [exact Hhead |]]]].
  - rewrite app_assoc, <- Hl, <- rev_app_distr, <- Hr. now rewrite rev_involutive.
  - apply List.Forall_rev. exact Hr'.
  - intros c front E. apply TrimLeft_suffix_last in E. destruct E as (front' & E).
    apply (f_equal (@rev Z)) in E. rewrite rev_involutive, rev_app_distr in E. simpl in E.
    now apply (Hlast c (rev front')).
Qed.

Lemma RuneLen_pos (r : rune) : 0 < Utf8.RuneLen r.
Proof.
  unfold Utf8.RuneLen.
  destruct (r <? 128); [lia |]. destruct (r <? 2048); [lia |]. destruct (r <? 65536); lia.
Qed.

Lemma len_nonempty (s : gostring) : s <> [] -> (len s =? 0) = false.
Proof.
  destruct s as [|c s]; [congruence |]. intros _. apply Z.eqb_neq.
  assert (H : forall t, 0 <= len t).
  { induction t as [|x t IH]; simpl; [lia |]. pose proof (RuneLen_pos x). lia. }
  simpl. pose proof (RuneLen_pos c). pose proof (H s). lia.
Qed.

(** ** Loops *)

Lemma bind_ret_l {A B} (a : A) (k : A -> M B) : bind (ret a) k = k a.
Proof. unfold bind, ret. destruct (k a). reflexivity. Qed.

Lemma bind_assoc {A B C} (x : M A) (k : A -> M B) (h : B -> M C) :
  bind (bind x k) h = bind x (fun a => bind (k a) h).
Proof.
  destruct x as [out [a | e |]]; simpl; try reflexivity.
  destruct (k a) as [out' [b | e |]]; simpl; try reflexivity.
  destruct (h b) as [out'' r]. now rewrite app_assoc.
Qed.

Lemma bind_ok {A B} (out : list gostring) (a : A) (k : A -> M B) :
  bind (out, Ok a) k = (out ++ stdout (k a), outcome (k a)).
Proof. unfold bind, stdout, outcome. destruct (k a). reflexivity. Qed.

Lemma forRange_app {A S} (body : S -> A -> M S) (l1 l2 : list A) (s : S) :
  forRange body (l1 ++ l2) s = bind (forRange body l1 s) (forRange body l2).
Proof.
  revert s. induction l1 as [|a l1 IH]; intros s; cbn [forRange app].
  - symmetry. apply bind_ret_l.
  - rewrite bind_assoc.
    destruct (body s a) as [o [s' | e |]]; [| reflexivity | reflexivity].
    rewrite !bind_ok. now rewrite IH.
Qed.

Section Arguments.

Variable JSON : Type.
Variable json_Unmarshal : gostring -> JSON + gostring.
Variable caseLower : rune -> rune.

Local Abbreviation coerceValue' := (coerceValue JSON json_Unmarshal caseLower).
Local Abbreviation buildQMPCommand_arg' := (buildQMPCommand_arg JSON json_Unmarshal caseLower).
Local Abbreviation buildQMPCommand' := (buildQMPCommand JSON json_Unmarshal caseLower).
Local Abbreviation executeCommand_build' := (executeCommand_build JSON json_Unmarshal caseLower).
Local Abbreviation arg_coerces' := (arg_coerces JSON json_Unmarshal caseLower).

(** A token that splits into a key and a value is coerced and stored. *)
Lemma buildQMPCommand_arg_pair (m : gmap gostring (Value JSON)) (arg key value : gostring) :
  splitString arg 61 = [key; value] ->
  buildQMPCommand_arg' m arg =
    (v <- coerceValue' (Strings.Trim value [34; 39]) ;; ret (<[key := v]> m)).
Proof.
  intros Hparts. unfold buildQMPCommand_arg. rewrite Hparts.
  rewrite len_nonempty; [reflexivity |].
  pose proof (splitString_nonempty arg 61 ltac:(discriminate)) as Hall.
  rewrite Hparts in Hall. inversion Hall as [|? ? _ Hall']; subst.
  inversion Hall'; subst. assumption.
Qed.

(** Every other token is refused with [ErrBadCommandFormat]. *)
Lemma buildQMPCommand_arg_malformed (m : gmap gostring (Value JSON)) (arg : gostring) :
  length (splitString arg 61) <> 2%nat ->
  buildQMPCommand_arg' m arg = ([], Err ErrBadCommandFormat).
Proof.
  intros Hlen. unfold buildQMPCommand_arg.
  destruct (splitString arg 61) as [|k [|v [|x rest]]]; try reflexivity.
  simpl in Hlen. congruence.
Qed.

(** C4, as amended: the value part of a key=value token reaches the
    coercion without any of its leading and trailing ASCII quotes,
    however many there are and whether or not they match; nothing else
    is removed. *)
Theorem value_quotes_trimmed (m : gmap gostring (Value JSON)) (arg key value : gostring) :
  splitString arg 61 = [key; value] ->
  buildQMPCommand_arg' m arg =
    (v <- coerceValue' (Strings.Trim value [34; 39]) ;; ret (<[key := v]> m)) /\
  exists l r,
    value = l ++ Strings.Trim value [34; 39] ++ r /\
    Forall is_quote l /\ Forall is_quote r /\
    (forall c rest, Strings.Trim value [34; 39] = c :: rest -> ~ is_quote c) /\
    (forall c front, Strings.Trim value [34; 39] = front ++ [c] -> ~ is_quote c).
Proof.
  intros Hparts. split; [now apply buildQMPCommand_arg_pair |].
  destruct (Trim_spec [34; 39] value) as (l & r & Hv & Hl & Hr & Hhead & Hlast).
  exists l, r. split; [exact Hv |].
  split; [eapply Forall_impl; [exact Hl | intros c; apply inCutset_quotes] |].
  split; [eapply Forall_impl; [exact Hr | intros c; apply inCutset_quotes] |].
  split.
  - intros c rest E Hq. apply inCutset_quotes in Hq. rewrite (Hhead c rest E) in Hq. discriminate.
  - intros c front E Hq. apply inCutset_quotes in Hq. rewrite (Hlast c front E) in Hq. discriminate.
Qed.

(** A value that begins with [{] or [[] is printed, then parsed. *)
Lemma coerceValue_structured (raw : gostring) :
  looks_structured raw ->
  coerceValue' raw =
    ([raw ++ [10]],
     match json_Unmarshal raw with
     | inl value => Ok (VJSON value)
     | inr msg => Err (Errorf (str "JSON parsing error: " ++ msg))
     end).
Proof.
  intros (c & rest & -> & Hc). unfold coerceValue.
  assert (Hlow : Unicode.ToLower caseLower c = c)
    by (destruct Hc as [-> | ->]; reflexivity).
  assert (Ht : streq (Strings.ToLower caseLower (c :: rest)) (str "true") = false).
  { apply streq_false. simpl. rewrite Hlow. intros [= -> _]. destruct Hc; discriminate. }
  assert (Hf : streq (Strings.ToLower caseLower (c :: rest)) (str "false") = false).
  { apply streq_false. simpl. rewrite Hlow. intros [= -> _]. destruct Hc; discriminate. }
  rewrite Ht, Hf.
  replace ((c =? 123) || (c =? 91)) with true
    by (symmetry; apply orb_true_iff; rewrite !Z.eqb_eq; exact Hc).
  unfold bind, Println.
  destruct (json_Unmarshal (c :: rest)); reflexivity.
Qed.

(** C10, as amended: when the loop of [buildQMPCommand] reaches a
    key=value token (every token before it was accepted) whose value,
    its quotes trimmed, begins with [{] or [[], that text and a line
    feed are written to standard output, after what the earlier tokens
    wrote; and when the parse of the text then fails, the text is the
    last thing written and the JSON error is returned. *)
Theorem structured_value_printed
    (cmdline name : gostring) (pre : list gostring) (arg : gostring) (post : list gostring)
    (key value : gostring) (out : list gostring) (m : gmap gostring (Value JSON)) :
  splitString cmdline 32 = name :: pre ++ arg :: post ->
  forRange buildQMPCommand_arg' pre ∅ = (out, Ok m) ->
  splitString arg 61 = [key; value] ->
  looks_structured (Strings.Trim value [34; 39]) ->
  (exists out',
     stdout (buildQMPCommand' cmdline) = out ++ (Strings.Trim value [34; 39] ++ [10]) :: out') /\
  (forall msg,
     json_Unmarshal (Strings.Trim value [34; 39]) = inr msg ->
     buildQMPCommand' cmdline =
       (out ++ [Strings.Trim value [34; 39] ++ [10]],
        Err (Errorf (str "JSON parsing error: " ++ msg)))).
Proof.
  intros Hline Hpre Hparts Hstruct.
  unfold buildQMPCommand. rewrite Hline.
  rewrite forRange_app, Hpre, bind_assoc, bind_ok. cbn [forRange].
  rewrite (buildQMPCommand_arg_pair m arg key value Hparts).
  rewrite (coerceValue_structured _ Hstruct).
  set (raw := Strings.Trim value [34; 39]).
  destruct (json_Unmarshal raw) as [v | msg'] eqn:Hj.
  - split; [| discriminate].
    rewrite !bind_ok. cbn [ret stdout outcome fst snd app].
    rewrite bind_assoc, bind_ok. cbn [stdout fst app].
    eexists. reflexivity.
  - split.
    + exists []. reflexivity.
    + intros msg [= <-]. reflexivity.
Qed.

(** A loop that ends well has accepted every token. *)
Lemma forRange_args_ok (args : list gostring) :
  forall (m m' : gmap gostring (Value JSON)) (out : list gostring),
    forRange buildQMPCommand_arg' args m = (out, Ok m') ->
    Forall (fun arg => length (splitString arg 61) = 2%nat) args.
Proof.
  induction args as [|arg args IH]; intros m m' out Hrun; [constructor |].
  cbn [forRange] in Hrun.
  destruct (Nat.eq_dec (length (splitString arg 61)) 2%nat) as [Hlen | Hlen].
  - constructor; [exact Hlen |].
    destruct (buildQMPCommand_arg' m arg) as [o [m1 | e |]]; try discriminate Hrun.
    rewrite bind_ok in Hrun. injection Hrun as _ Hrun.
    destruct (forRange buildQMPCommand_arg' args m1) as [o' r'] eqn:Hrest.
    cbn [outcome snd] in Hrun. subst r'. eapply IH. exact Hrest.
  - rewrite (buildQMPCommand_arg_malformed m arg Hlen) in Hrun. discriminate Hrun.
Qed.

(** C6, as amended: a line with no token and a token that does not
    split on [=] into two parts are both refused with the one error
    [ErrBadCommandFormat], which carries no token; a command is returned
    only when every token was accepted and stored. *)
Theorem buildQMPCommand_failures :
  (forall cmdline,
     splitString cmdline 32 = [] ->
     buildQMPCommand' cmdline = ([], Err ErrBadCommandFormat)) /\
  (forall cmdline name pre arg post out m,
     splitString cmdline 32 = name :: pre ++ arg :: post ->
     forRange buildQMPCommand_arg' pre ∅ = (out, Ok m) ->
     length (splitString arg 61) <> 2%nat ->
     buildQMPCommand' cmdline = (out, Err ErrBadCommandFormat)) /\
  (forall cmdline cmd,
     outcome (buildQMPCommand' cmdline) = Ok cmd ->
     exists args,
       splitString cmdline 32 = Name cmd :: args /\
       Forall (fun arg => length (splitString arg 61) = 2%nat) args /\
       outcome (forRange buildQMPCommand_arg' args ∅) = Ok (Arguments cmd)).
Proof.
  split; [| split].
  - intros cmdline Hnone. unfold buildQMPCommand. now rewrite Hnone.
  - intros cmdline name pre arg post out m Hline Hpre Hbad.
    unfold buildQMPCommand. rewrite Hline, forRange_app, Hpre, bind_assoc, bind_ok.
    cbn [forRange].
    rewrite (buildQMPCommand_arg_malformed m arg Hbad).
    cbn. now rewrite app_nil_r.
  - intros cmdline cmd. unfold buildQMPCommand.
    destruct (splitString cmdline 32) as [|name args]; [discriminate |].
    destruct (forRange buildQMPCommand_arg' args ∅) as [out [m | e |]] eqn:Hrun;
      cbn; try discriminate.
    intros [= <-]. exists args. cbn [Name Arguments].
    split; [reflexivity |]. split; [| now rewrite Hrun].
    eapply forRange_args_ok. exact Hrun.
Qed.

(** *** Well-formed lines *)

Lemma outcome_bind_ok {A B} (x : M A) (a : A) (k : A -> M B) :
  outcome x = Ok a -> outcome (bind x k) = outcome (k a).
Proof.
  destruct x as [out r]. cbn [outcome snd]. intros ->. now rewrite bind_ok.
Qed.

Lemma forRange_coerced (args : list (gostring * (gostring * Value JSON))) :
  forall m0,
    Forall (fun a => arg_coerces' a.1 a.2.1 a.2.2) args ->
    outcome (forRange buildQMPCommand_arg' (args.*1) m0) = Ok (fold_left store (args.*2) m0).
Proof.
  induction args as [|[arg [key v]] args IH]; intros m0 Hall; [reflexivity |].
  inversion Hall as [|? ? (value & Hparts & Hv) Hall']; subst. cbn [fst snd] in *.
  cbn [fmap list_fmap forRange fold_left fst snd].
  rewrite (buildQMPCommand_arg_pair m0 arg key value Hparts).
  rewrite bind_assoc. rewrite (outcome_bind_ok _ v _ Hv).
  rewrite bind_ret_l. now apply IH.
Qed.

Lemma fold_left_store_lookup (kvs : list (gostring * Value JSON)) :
  forall (m0 : gmap gostring (Value JSON)) (key : gostring) (v : Value JSON),
    fold_left store kvs m0 !! key = Some v <->
    (exists before after, kvs = before ++ (key, v) :: after /\ key ∉ (after.*1)) \/
    ((key ∉ (kvs.*1)) /\ m0 !! key = Some v).
Proof.
  induction kvs as [|[k1 v1] rest IH]; intros m0 key v.
  - cbn. split.
    + intros H. right. split; [apply not_elem_of_nil | exact H].
    + intros [(before & after & E & _) | [_ H]]; [| exact H].
      destruct before; discriminate E.
  - cbn [fold_left]. rewrite IH. unfold store at 1. cbn [fst snd]. split.
    + intros [(before & after & -> & Hlast) | [Hnot Hlook]].
      * left. exists ((k1, v1) :: before), after. split; [reflexivity | exact Hlast].
      * destruct (decide (k1 = key)) as [-> | Hne].
        -- rewrite lookup_insert_eq in Hlook. injection Hlook as ->.
           left. exists [], rest. split; [reflexivity | exact Hnot].
        -- rewrite lookup_insert_ne in Hlook by exact Hne.
           right. split; [| exact Hlook].
           cbn. rewrite not_elem_of_cons. split; [congruence | exact Hnot].
    + intros [(before & after & E & Hlast) | [Hnot Hlook]].
      * destruct before as [|b before]; cbn in E.
        -- inversion E; subst. right. split; [exact Hlast |]. apply lookup_insert_eq.
        -- inversion E; subst. left. exists before, after. split; [reflexivity | exact Hlast].
      * cbn in Hnot. rewrite not_elem_of_cons in Hnot. destruct Hnot as [Hne Hnot].
        right. split; [exact Hnot |]. rewrite lookup_insert_ne by congruence. exact Hlook.
Qed.

Lemma last_occurrence_NoDup (kvs : list (gostring * Value JSON)) (key : gostring) (v : Value JSON) :
  NoDup (kvs.*1) ->
  (exists before after, kvs = before ++ (key, v) :: after /\ key ∉ (after.*1)) <-> (key, v) ∈ kvs.
Proof.
  intros Hnd. split.
  - intros (before & after & -> & _). apply elem_of_app. right. apply elem_of_cons. now left.
  - intros Hin. apply list_elem_of_split in Hin. destruct Hin as (before & after & ->).
    exists before, after. split; [reflexivity |].
    rewrite fmap_app, fmap_cons in Hnd. apply NoDup_app in Hnd. destruct Hnd as (_ & _ & Hnd).
    apply NoDup_cons in Hnd. exact (proj1 Hnd).
Qed.

Lemma fold_left_store_Permutation (kvs kvs' : list (gostring * Value JSON)) :
  kvs' ≡ₚ kvs -> NoDup (kvs.*1) ->
  fold_left store kvs' ∅ = fold_left store kvs ∅.
Proof.
  intros Hperm Hnd.
  assert (Hnd' : NoDup (kvs'.*1)) by (now rewrite Hperm).
  apply map_eq. intros key. apply option_eq. intros v.
  rewrite !fold_left_store_lookup, lookup_empty.
  rewrite (last_occurrence_NoDup kvs key v Hnd), (last_occurrence_NoDup kvs' key v Hnd').
  rewrite Hperm. split; (intros [H | [_ [=]]]; left; exact H).
Qed.

(** C2, as amended: when the tokens of a line are a name and key=value
    tokens whose values, their quotes trimmed, all coerce to a value
    (none is empty and those that begin with [{] or [[] parse), the
    command has that name, its arguments are exactly the keys given,
    each with the coerced value of its last occurrence, and with
    distinct keys any other order of the tokens gives the same
    command. *)
Theorem buildQMPCommand_well_formed
    (cmdline name : gostring) (args : list (gostring * (gostring * Value JSON))) :
  splitString cmdline 32 = name :: (args.*1) ->
  Forall (fun a => arg_coerces' a.1 a.2.1 a.2.2) args ->
  exists m,
    outcome (buildQMPCommand' cmdline) = Ok (mkQMPCommand name m) /\
    (forall key v,
       m !! key = Some v <->
       exists before after, (args.*2) = before ++ (key, v) :: after /\ key ∉ (after.*1)) /\
    (forall cmdline' args',
       splitString cmdline' 32 = name :: (args'.*1) ->
       args' ≡ₚ args -> NoDup ((args.*2).*1) ->
       outcome (buildQMPCommand' cmdline') = Ok (mkQMPCommand name m)).
Proof.
  intros Hline Hall.
  assert (Hbuild : forall line (l : list (gostring * (gostring * Value JSON))),
            splitString line 32 = name :: (l.*1) ->
            Forall (fun a => arg_coerces' a.1 a.2.1 a.2.2) l ->
            outcome (buildQMPCommand' line) = Ok (mkQMPCommand name (fold_left store (l.*2) ∅))).
  { intros line l Hl Hcoerce. unfold buildQMPCommand. rewrite Hl.
    rewrite (outcome_bind_ok _ _ _ (forRange_coerced l ∅ Hcoerce)). reflexivity. }
  exists (fold_left store (args.*2) ∅). split; [now apply Hbuild |]. split.
  - intros key v. rewrite fold_left_store_lookup, lookup_empty. split.
    + intros [H | [_ [=]]]. exact H.
    + intros H. left. exact H.
  - intros cmdline' args' Hline' Hperm Hnd.
    rewrite (Hbuild cmdline' args' Hline') by (now rewrite Hperm).
    do 2 f_equal. apply fold_left_store_Permutation; [now rewrite Hperm | exact Hnd].
Qed.

End Arguments.

(** ** The line wrapping of the HMP shell *)

(** Inside a quoted span everything up to the closing mark is kept. *)
Lemma tokens_from_inside_quote (isSeparator : rune -> bool) (q : rune) (body : gostring) :
  q ∉ body ->
  forall cur rest,
    tokens_from isSeparator (InsideQuote q) cur (body ++ q :: rest)
    = tokens_from isSeparator Normal (cur ++ body ++ [q]) rest.
Proof.
  induction body as [|c body IH]; intros Hq cur rest.
  - cbn. rewrite Z.eqb_refl. reflexivity.
  - apply not_elem_of_cons in Hq. destruct Hq as [Hne Hq].
    cbn [app tokens_from tokenizer_step].
    destruct (Z.eqb_spec c q); [congruence |].
    rewrite IH by exact Hq. now rewrite <- !app_assoc.
Qed.

Lemma TrimLeft_stop (cutset s : gostring) (c : rune) :
  Strings.inCutset cutset c = false -> Strings.TrimLeft (c :: s) cutset = c :: s.
Proof. intros H. cbn. now rewrite H. Qed.

(** Trimming a text wrapped in single quotes gives the text back when
    the text itself has no quote at either end. *)
Lemma Trim_wrapped (line : gostring) :
  line <> [] ->
  head line <> Some 34 -> head line <> Some 39 ->
  last line <> Some 34 -> last line <> Some 39 ->
  Strings.Trim (39 :: line ++ [39]) [34; 39] = line.
Proof.
  intros Hne Hh1 Hh2 Hl1 Hl2.
  assert (Hnq : forall c, Some c <> Some 34 -> Some c <> Some 39 ->
                          Strings.inCutset [34; 39] c = false).
  { intros c H1 H2. destruct (Strings.inCutset [34; 39] c) eqn:E; [| reflexivity].
    apply inCutset_quotes in E. destruct E as [-> | ->]; congruence. }
  unfold Strings.Trim, Strings.TrimRight.
  destruct (rev line) as [|d front] eqn:Hrev.
  { apply (f_equal (@rev Z)) in Hrev. rewrite rev_involutive in Hrev. contradiction. }
  assert (Hline : line = rev front ++ [d]).
  { apply (f_equal (@rev Z)) in Hrev. rewrite rev_involutive in Hrev. exact Hrev. }
  assert (Hlast : last line = Some d) by (rewrite Hline; apply last_snoc).
  rewrite Hlast in Hl1, Hl2.
  change (39 :: line ++ [39]) with ([39] ++ line ++ [39]).
  rewrite !rev_app_distr, Hrev. cbn [rev app].
  change (Strings.TrimLeft (39 :: d :: front ++ [39]) [34; 39])
    with (Strings.TrimLeft (d :: front ++ [39]) [34; 39]).
  rewrite TrimLeft_stop by (now apply Hnq).
  change (d :: front ++ [39]) with ([d] ++ front ++ [39]).
  rewrite !rev_app_distr. cbn [rev app].
  rewrite <- Hline.
  change (Strings.TrimLeft (39 :: line) [34; 39]) with (Strings.TrimLeft line [34; 39]).
  destruct line as [|c line']; [contradiction |].
  apply TrimLeft_stop. now apply Hnq.
Qed.

Section HMP.

Variable JSON : Type.
Variable json_Unmarshal : gostring -> JSON + gostring.
Variable caseLower : rune -> rune.

Local Abbreviation coerceValue' := (coerceValue JSON json_Unmarshal caseLower).
Local Abbreviation executeCommand_build' := (executeCommand_build JSON json_Unmarshal caseLower).

Lemma wrapped_line_tokens (line : gostring) :
  39 ∉ line ->
  splitString (str "human-monitor-command command-line='" ++ line ++ str "'") 32
  = [str "human-monitor-command"; str "command-line='" ++ line ++ str "'"].
Proof.
  intros Hq. rewrite splitString_tokenize by discriminate.
  change (tokenize (separator_test 32)
            (str "human-monitor-command command-line='" ++ line ++ str "'"))
    with (str "human-monitor-command"
          :: tokens_from Unicode.IsSpace (InsideQuote 39) (str "command-line='")
               (line ++ 39 :: [])).
  rewrite tokens_from_inside_quote by exact Hq. reflexivity.
Qed.

Lemma wrapped_line_parts (line : gostring) :
  39 ∉ line ->
  splitString (str "command-line='" ++ line ++ str "'") 61
  = [str "command-line"; 39 :: line ++ [39]].
Proof.
  intros Hq. rewrite splitString_tokenize by discriminate.
  change (tokenize (separator_test 61) (str "command-line='" ++ line ++ str "'"))
    with (str "command-line"
          :: tokens_from (fun c => c =? 61) (InsideQuote 39) [39] (line ++ 39 :: [])).
  rewrite tokens_from_inside_quote by exact Hq. reflexivity.
Qed.

(** C3, as amended: in HMP mode the line is wrapped in single quotes as
    the argument [command-line] of [human-monitor-command] and built as
    any other line.  For a non-empty line with no ASCII single quote in
    it and no ASCII double quote at either end, the command has that
    name and that one argument, and its value is what the coercion makes
    of the line: the line as a string when the coercion keeps it as a
    string, a boolean, an integer or a JSON value when the line reads as
    one. *)
Theorem HMP_line_wrapped (line : gostring) :
  line <> [] -> 39 ∉ line -> head line <> Some 34 -> last line <> Some 34 ->
  executeCommand_build' true line =
    (v <- coerceValue' line ;;
     ret (mkQMPCommand (str "human-monitor-command") {[ str "command-line" := v ]})) /\
  (outcome (coerceValue' line) = Ok (VString line) ->
   outcome (executeCommand_build' true line) =
     Ok (mkQMPCommand (str "human-monitor-command") {[ str "command-line" := VString line ]})).
Proof.
  intros Hne Hq Hhead Hlast.
  assert (Hh39 : head line <> Some 39).
  { intros E. apply Hq. destruct line as [|c l]; [discriminate |].
    injection E as ->. apply elem_of_cons. now left. }
  assert (Hl39 : last line <> Some 39).
  { intros E. apply Hq. apply last_Some in E. destruct E as (l' & ->).
    apply elem_of_app. right. apply elem_of_cons. now left. }
  assert (Heq : executeCommand_build' true line =
    (v <- coerceValue' line ;;
     ret (mkQMPCommand (str "human-monitor-command") {[ str "command-line" := v ]}))).
  { unfold executeCommand_build, buildQMPCommand.
    rewrite (wrapped_line_tokens line Hq). cbn [forRange].
    rewrite (buildQMPCommand_arg_pair JSON json_Unmarshal caseLower ∅ _ _ _
               (wrapped_line_parts line Hq)).
    rewrite (Trim_wrapped line Hne Hhead Hh39 Hlast Hl39).
    destruct (coerceValue' line) as [out [v | e |]]; try reflexivity.
    rewrite !bind_ok. cbn. rewrite insert_empty. now rewrite !app_nil_r. }
  split; [exact Heq |].
  intros Hs. rewrite Heq. rewrite (outcome_bind_ok _ _ _ Hs). reflexivity.
Qed.

End HMP.

(** ** The completion list *)

Lemma string_leb_total (a b : gostring) : string_leb a b = true \/ string_leb b a = true.
Proof.
  revert b. induction a as [|x a IH]; intros [|y b]; cbn; auto.
  destruct (IH b) as [H | H]; rewrite H;
    destruct (Z.ltb_spec x y); destruct (Z.ltb_spec y x);
    destruct (Z.eqb_spec x y); destruct (Z.eqb_spec y x); cbn; auto; lia.
Qed.

Lemma string_leb_trans (a b c : gostring) :
  string_leb a b = true -> string_leb b c = true -> string_leb a c = true.
Proof.
  revert b c. induction a as [|x a IH]; intros [|y b] [|z c]; cbn; try easy.
  rewrite !orb_true_iff, !andb_true_iff, !Z.ltb_lt, !Z.eqb_eq.
  intros [Hxy | [-> Hab]] [Hyz | [-> Hbc]].
  - left. lia.
  - left. exact Hxy.
  - left. exact Hyz.
  - right. split; [reflexivity |]. now apply (IH b c).
Qed.

Lemma string_le_total : Total string_le.
Proof. intros a b. apply string_leb_total. Qed.

Lemma string_le_trans : Transitive string_le.
Proof. intros a b c. apply string_leb_trans. Qed.

Lemma NewHMPShell_help_appends (cmdlist : list gostring) (line : gostring) :
  NewHMPShell_help cmdlist line = (es <- help_entries line ;; ret (cmdlist ++ es)).
Proof.
  unfold help_entries, NewHMPShell_help.
  destruct line as [|c rest]; [cbn; now rewrite app_nil_r |].
  destruct (negb (negb (c =? 91) && negb (c =? 9))); [cbn; now rewrite app_nil_r |].
  destruct (Strings.Fields (c :: rest)) as [|name fields]; [reflexivity |].
  destruct (streq name (str "info")); [cbn; now rewrite app_nil_r |].
  destruct (Strings.Contains (c :: rest) (str "|")); [| reflexivity].
  destruct (Strings.Split name (str "|")) as [|nn0 nn']; [reflexivity |].
  destruct (len nn0 =? 1); [| reflexivity].
  destruct nn'; reflexivity.
Qed.

Lemma NewHMPShell_info_appends (cmdlist : list gostring) (line : gostring) :
  NewHMPShell_info cmdlist line = (es <- info_entries line ;; ret (cmdlist ++ es)).
Proof.
  unfold info_entries, NewHMPShell_info.
  destruct (negb ((0 <? len line) && (2 <=? Z.of_nat (length (Strings.Fields line)))));
    [cbn; now rewrite app_nil_r |].
  destruct (Strings.Fields line) as [|f0 [|topic fields]]; reflexivity.
Qed.

(** A loop whose body only appends collects the entries of its lines. *)
Lemma forRange_collect (body : list gostring -> gostring -> M (list gostring)) :
  (forall cmdlist line, body cmdlist line = (es <- body [] line ;; ret (cmdlist ++ es))) ->
  forall (lines : list gostring) (cmdlist : list gostring),
    forRange body lines cmdlist = (es <- forRange body lines [] ;; ret (cmdlist ++ es)).
Proof.
  intros Happ. induction lines as [|line lines IH]; intros cmdlist.
  - cbn. now rewrite app_nil_r.
  - cbn [forRange]. rewrite (Happ cmdlist line).
    destruct (body [] line) as [o [e | err |]]; [| reflexivity | reflexivity].
    rewrite !bind_ok. cbn [ret stdout outcome fst snd app].
    rewrite !bind_ok. cbn [stdout outcome fst snd app].
    rewrite (IH (cmdlist ++ e)), (IH e).
    destruct (forRange body lines []) as [o' [es | err |]]; cbn;
      rewrite ?app_nil_r, <- ?app_assoc; reflexivity.
Qed.

Lemma forRange_entries (body : list gostring -> gostring -> M (list gostring)) :
  (forall cmdlist line, body cmdlist line = (es <- body [] line ;; ret (cmdlist ++ es))) ->
  forall (lines : list gostring) (es : list gostring),
    outcome (forRange body lines []) = Ok es ->
    forall line, line ∈ lines ->
      exists es', outcome (body [] line) = Ok es' /\ es' ⊆ es.
Proof.
  intros Happ. induction lines as [|x lines IH]; intros es Hrun line Hin.
  - inversion Hin.
  - cbn [forRange] in Hrun.
    destruct (body [] x) as [o [e | err |]] eqn:Hx; try discriminate Hrun.
    rewrite bind_ok in Hrun. cbn [outcome snd] in Hrun.
    rewrite (forRange_collect body Happ lines e) in Hrun.
    destruct (forRange body lines []) as [o' [es2 | err |]] eqn:Hrest; try discriminate Hrun.
    cbn in Hrun. injection Hrun as <-.
    apply elem_of_cons in Hin. destruct Hin as [-> | Hin].
    + exists e. rewrite Hx. split; [reflexivity |].
      intros y Hy. apply elem_of_app. now left.
    + destruct (IH es2 eq_refl line Hin) as (es' & Hes' & Hsub).
      exists es'. split; [exact Hes' |].
      intros y Hy. apply elem_of_app. right. now apply Hsub.
Qed.

Lemma NewHMPShell_cmdlist_sorted (help info : gostring) (idx : list gostring) :
  outcome (NewHMPShell_cmdlist help info) = Ok idx ->
  exists cmds infos,
    outcome (forRange NewHMPShell_help (Strings.Split help [13; 10]) []) = Ok cmds /\
    outcome (forRange NewHMPShell_info (Strings.Split info [13; 10]) []) = Ok infos /\
    idx = sort_Strings (cmds ++ infos).
Proof.
  unfold NewHMPShell_cmdlist. intros Hrun.
  destruct (forRange NewHMPShell_help (Strings.Split help [13; 10]) [])
    as [o [cmds | err |]]; try discriminate Hrun.
  rewrite bind_ok in Hrun. cbn [outcome snd] in Hrun.
  rewrite (forRange_collect _ NewHMPShell_info_appends), bind_assoc in Hrun.
  destruct (forRange NewHMPShell_info (Strings.Split info [13; 10]) [])
    as [o' [infos | err |]]; try discriminate Hrun.
  cbn in Hrun. injection Hrun as <-.
  exists cmds, infos. repeat split; reflexivity.
Qed.


Lemma sort_Strings_elem_of (l : list gostring) (x : gostring) :
  x ∈ sort_Strings l <-> x ∈ l.
Proof. unfold sort_Strings. now rewrite merge_sort_Permutation. Qed.

(** *** One line of a reply *)

Lemma fields_from_elem {St : Type} (f : St -> rune -> St * bool) (s : gostring) :
  forall st cur t c, t ∈ fields_from f st cur s -> c ∈ t -> c ∈ cur \/ c ∈ s.
Proof.
  assert (Hemit : forall cur t, t ∈ emit cur -> t = cur).
  { intros [|x cur] t Ht; cbn in Ht; [inversion Ht | now apply list_elem_of_singleton in Ht]. }
  induction s as [|x s IH]; intros st cur t c Ht Hc; cbn [fields_from] in Ht.
  - apply Hemit in Ht. subst t. now left.
  - destruct (f st x) as [st' sep]. destruct sep.
    + apply elem_of_app in Ht. destruct Ht as [Ht | Ht].
      * apply Hemit in Ht. subst t. now left.
      * destruct (IH st' [] t c Ht Hc) as [Hin | Hin]; [inversion Hin |].
        right. apply elem_of_cons. now right.
    + destruct (IH st' (cur ++ [x]) t c Ht Hc) as [Hin | Hin].
      * apply elem_of_app in Hin. destruct Hin as [Hin | Hin]; [now left |].
        apply list_elem_of_singleton in Hin. subst c. right. apply elem_of_cons. now left.
      * right. apply elem_of_cons. now right.
Qed.

(** A character of a field is a character of the line. *)
Lemma Fields_elem (line t : gostring) (c : rune) :
  t ∈ Strings.Fields line -> c ∈ t -> c ∈ line.
Proof.
  unfold Strings.Fields. rewrite FieldsFunc_fields. intros Ht Hc.
  destruct (fields_from_elem _ line tt [] t c Ht Hc) as [Hin | Hin]; [inversion Hin | exact Hin].
Qed.

Lemma Contains_elem (s : gostring) (c : rune) :
  Strings.Contains s [c] = true <-> c ∈ s.
Proof.
  induction s as [|x s IH]; cbn.
  - split; [discriminate | intros H; inversion H].
  - rewrite orb_true_iff, andb_true_iff, Z.eqb_eq, IH, elem_of_cons. split.
    + intros [[-> _] | H]; [now left | now right].
    + intros [-> | H]; [left; split; [reflexivity | now destruct s] | now right].
Qed.

Lemma Split_from_piece (p : rune) (a : gostring) :
  p ∉ a ->
  forall rest cur,
    Strings.Split_from [p] (a ++ rest) 0 cur = Strings.Split_from [p] rest 0 (rev a ++ cur).
Proof.
  induction a as [|x a IH]; intros Hnot rest cur; [reflexivity |].
  apply not_elem_of_cons in Hnot. destruct Hnot as [Hx Ha].
  cbn [app Strings.Split_from Strings.HasPrefix].
  destruct (Z.eqb_spec x p) as [-> | _]; [congruence |].
  cbn [andb]. rewrite (IH Ha). cbn [rev]. now rewrite <- app_assoc.
Qed.

(** [strings.Split] of two forms around one separator. *)
Lemma Split_pair (p : rune) (a b : gostring) :
  p ∉ a -> p ∉ b -> Strings.Split (a ++ [p] ++ b) [p] = [a; b].
Proof.
  intros Ha Hb.
  assert (Hlast : Strings.Split_from [p] b 0 [] = [b]).
  { pose proof (Split_from_piece p b Hb [] []) as H. rewrite !app_nil_r in H.
    rewrite H. cbn. now rewrite rev_involutive. }
  unfold Strings.Split. rewrite (Split_from_piece p a Ha).
  cbn [app Strings.Split_from Strings.HasPrefix]. rewrite Z.eqb_refl. cbn [andb].
  rewrite app_nil_r, rev_involutive.
  change (Nat.pred (length [p])) with 0%nat.
  assert (Hnil : Strings.HasPrefix b [] = true) by (now destruct b).
  now rewrite Hnil, Hlast.
Qed.

Lemma len_nonneg (s : gostring) : 0 <= len s.
Proof.
  induction s as [|x s IH]; [cbn; lia |].
  change (len (x :: s)) with (Utf8.RuneLen x + len s). pose proof (RuneLen_pos x). lia.
Qed.

(** The test [len(nn[0]) == 1] counts bytes. *)
Lemma len_one_byte (a : gostring) : (len a =? 1) = one_byte a.
Proof.
  destruct a as [|c [|d a]]; [reflexivity | |].
  - cbn. unfold Utf8.RuneLen.
    destruct (c <? 128); [reflexivity |].
    destruct (c <? 2048); [reflexivity |]. destruct (c <? 65536); reflexivity.
  - cbn [one_byte]. apply Z.eqb_neq.
    change (len (c :: d :: a)) with (Utf8.RuneLen c + (Utf8.RuneLen d + len a)).
    pose proof (RuneLen_pos c). pose proof (RuneLen_pos d). pose proof (len_nonneg a). lia.
Qed.

Lemma help_skip_false (line : gostring) :
  line <> [] -> head line <> Some 91 -> head line <> Some 9 ->
  exists c rest, line = c :: rest /\ negb (negb (c =? 91) && negb (c =? 9)) = false.
Proof.
  destruct line as [|c rest]; [congruence |]. intros _ H1 H2. exists c, rest.
  split; [reflexivity |].
  destruct (Z.eqb_spec c 91) as [-> | _]; [now destruct H1 |].
  destruct (Z.eqb_spec c 9) as [-> | _]; [now destruct H2 | reflexivity].
Qed.

Lemma Fields_line_nonempty (line t : gostring) (fields : list gostring) :
  Strings.Fields line = t :: fields -> line <> [].
Proof. intros H ->. discriminate H. Qed.

(** A kept line whose first field is [a|b]. *)
Lemma help_entries_alias (line a b : gostring) (fields : list gostring) :
  head line <> Some 91 -> head line <> Some 9 ->
  Strings.Fields line = (a ++ [124] ++ b) :: fields ->
  124 ∉ a -> 124 ∉ b ->
  help_entries line = ret [chosen_alias a b; str "help " ++ chosen_alias a b].
Proof.
  intros H1 H2 Hf Ha Hb.
  destruct (help_skip_false line (Fields_line_nonempty _ _ _ Hf) H1 H2)
    as (c & rest & -> & Hkeep).
  unfold help_entries, NewHMPShell_help. rewrite Hkeep, Hf.
  assert (Hbar : (124 : Z) ∈ a ++ [124] ++ b).
  { apply elem_of_app. right. apply elem_of_cons. now left. }
  assert (Hname : a ++ [124] ++ b <> str "info").
  { intros E. rewrite E in Hbar. apply list_elem_of_In in Hbar. vm_compute in Hbar.
    intuition discriminate. }
  rewrite (proj2 (streq_false _ _) Hname).
  assert (Hline : Strings.Contains (c :: rest) (str "|") = true).
  { apply (Contains_elem (c :: rest) 124).
    apply (Fields_elem _ (a ++ [124] ++ b)); [| exact Hbar].
    rewrite Hf. apply elem_of_cons. now left. }
  rewrite Hline. change (str "|") with [124]. rewrite (Split_pair 124 a b Ha Hb).
  rewrite len_one_byte. unfold chosen_alias. destruct (one_byte a); reflexivity.
Qed.

(** A kept line with no [|] at all. *)
Lemma help_entries_plain (line name : gostring) (fields : list gostring) :
  head line <> Some 91 -> head line <> Some 9 ->
  Strings.Fields line = name :: fields ->
  name <> str "info" -> 124 ∉ line ->
  help_entries line = ret [name; str "help " ++ name].
Proof.
  intros H1 H2 Hf Hname Hbar.
  destruct (help_skip_false line (Fields_line_nonempty _ _ _ Hf) H1 H2)
    as (c & rest & -> & Hkeep).
  unfold help_entries, NewHMPShell_help. rewrite Hkeep, Hf.
  rewrite (proj2 (streq_false _ _) Hname).
  assert (Hline : Strings.Contains (c :: rest) (str "|") = false).
  { destruct (Strings.Contains (c :: rest) (str "|")) eqn:E; [| reflexivity].
    apply (Contains_elem (c :: rest) 124) in E. contradiction. }
  rewrite Hline. reflexivity.
Qed.

(** A line whose first field is [info] is passed over. *)
Lemma help_line_info (cmdlist : list gostring) (line : gostring) (fields : list gostring) :
  Strings.Fields line = str "info" :: fields ->
  NewHMPShell_help cmdlist line = ret cmdlist.
Proof.
  intros Hf. unfold NewHMPShell_help.
  destruct line as [|c rest]; [reflexivity |].
  destruct (negb (negb (c =? 91) && negb (c =? 9))); [reflexivity |].
  rewrite Hf. now rewrite (proj2 (streq_true _ _) eq_refl).
Qed.

(** A line of the status list with two fields or more. *)
Lemma info_entries_topic (line f0 topic : gostring) (fields : list gostring) :
  Strings.Fields line = f0 :: topic :: fields ->
  info_entries line = ret [str "info " ++ topic].
Proof.
  intros Hf. unfold info_entries, NewHMPShell_info. rewrite Hf.
  assert (Hlen : (0 <? len line) = true).
  { apply Z.ltb_lt. pose proof (len_nonneg line).
    pose proof (len_nonempty line (Fields_line_nonempty _ _ _ Hf)) as Hne.
    apply Z.eqb_neq in Hne. lia. }
  rewrite Hlen.
  assert (Hcount : (2 <=? Z.of_nat (length (f0 :: topic :: fields))) = true)
    by (apply Z.leb_le; cbn [length]; lia).
  rewrite Hcount. reflexivity.
Qed.

(** The entries of one line are in the list. *)
Lemma help_line_entries (help info line : gostring) (idx es : list gostring) :
  outcome (NewHMPShell_cmdlist help info) = Ok idx ->
  line ∈ Strings.Split help [13; 10] ->
  help_entries line = ret es ->
  forall e, e ∈ es -> e ∈ idx.
Proof.
  intros Hrun Hline Hes e He.
  destruct (NewHMPShell_cmdlist_sorted help info idx Hrun) as (cmds & infos & Hc & _ & ->).
  destruct (forRange_entries _ NewHMPShell_help_appends _ _ Hc _ Hline) as (es' & Hes' & Hsub).
  unfold help_entries in Hes. rewrite Hes in Hes'. cbn in Hes'. injection Hes' as <-.
  rewrite sort_Strings_elem_of, elem_of_app. left. now apply Hsub.
Qed.

Lemma info_line_entries (help info line : gostring) (idx es : list gostring) :
  outcome (NewHMPShell_cmdlist help info) = Ok idx ->
  line ∈ Strings.Split info [13; 10] ->
  info_entries line = ret es ->
  forall e, e ∈ es -> e ∈ idx.
Proof.
  intros Hrun Hline Hes e He.
  destruct (NewHMPShell_cmdlist_sorted help info idx Hrun) as (cmds & infos & _ & Hi & ->).
  destruct (forRange_entries _ NewHMPShell_info_appends _ _ Hi _ Hline) as (es' & Hes' & Hsub).
  unfold info_entries in Hes. rewrite Hes in Hes'. cbn in Hes'. injection Hes' as <-.
  rewrite sort_Strings_elem_of, elem_of_app. right. now apply Hsub.
Qed.


(** ** The completer *)

Lemma HasPrefix_spec (s prefix : gostring) :
  Strings.HasPrefix s prefix = true <-> exists rest, s = prefix ++ rest.
Proof.
  revert s. induction prefix as [|p prefix IH]; intros s.
  - split; [intros _; now exists s | intros _; destruct s; reflexivity].
  - destruct s as [|c s]; cbn.
    + split; [discriminate | intros (rest & [=])].
    + rewrite andb_true_iff, Z.eqb_eq, IH. split.
      * intros [-> (rest & ->)]. now exists rest.
      * intros (rest & [= -> ->]). split; [reflexivity | now exists rest].
Qed.

Lemma completer_elem_of (caseLower : rune -> rune) (cmdlist : list gostring) (line n : gostring) :
  n ∈ completer caseLower cmdlist line <->
  n ∈ cmdlist /\ Strings.HasPrefix n (Strings.ToLower caseLower line) = true.
Proof.
  induction cmdlist as [|x cmdlist IH]; cbn.
  - split; [intros H; inversion H | intros [H _]; inversion H].
  - destruct (Strings.HasPrefix x (Strings.ToLower caseLower line)) eqn:Hx.
    + rewrite !elem_of_cons, IH. split.
      * intros [-> | [H1 H2]]; [split; [now left | exact Hx] | split; [now right | exact H2]].
      * intros [[-> | H1] H2]; [now left | right; now split].
    + rewrite elem_of_cons, IH. split.
      * intros [H1 H2]. split; [now right | exact H2].
      * intros [[-> | H1] H2]; [congruence | now split].
Qed.

(** C9, as amended: the callback returns an entry of the list exactly
    when the entry begins with the lower-cased input, letter for letter;
    so an entry written in lower case is returned whenever the input
    matches it by prefix up to case. *)
Theorem completer_lower_cases_input
    (caseLower : rune -> rune) (cmdlist : list gostring) (line n : gostring) :
  (n ∈ completer caseLower cmdlist line <->
   n ∈ cmdlist /\ exists rest, n = Strings.ToLower caseLower line ++ rest) /\
  (n ∈ cmdlist -> Strings.ToLower caseLower n = n ->
   ci_has_prefix caseLower n line -> n ∈ completer caseLower cmdlist line).
Proof.
  split.
  - now rewrite completer_elem_of, HasPrefix_spec.
  - intros Hin Hlow (rest & Hpre). apply completer_elem_of. split; [exact Hin |].
    apply HasPrefix_spec. exists rest. now rewrite <- Hlow.
Qed.

(** ** Examples *)

(** C2 at the line [cmd a=1 a=2]: the key [a] holds the integer 2. *)
Lemma buildQMPCommand_well_formed_witness :
  exists m,
    outcome (buildQMPCommand example_JSON example_Unmarshal example_caseLower
               (str "cmd a=1 a=2")) = Ok (mkQMPCommand (str "cmd") m) /\
    m !! str "a" = Some (VInt 2).
Proof.
  destruct (buildQMPCommand_well_formed example_JSON example_Unmarshal example_caseLower
              (str "cmd a=1 a=2") (str "cmd")
              [(str "a=1", (str "a", VInt 1)); (str "a=2", (str "a", VInt 2))])
    as (m & Hm & Hlookup & _).
  - reflexivity.
  - repeat constructor.
    + exists (str "1"). split; reflexivity.
    + exists (str "2"). split; reflexivity.
  - exists m. split; [exact Hm |]. apply Hlookup.
    exists [(str "a", VInt 1)], []. split; [reflexivity | apply not_elem_of_nil].
Defined.

(** C2 as stated fails on a value that begins with [{] and is not JSON:
    the line is a name and a token with a key and a non-empty value, and
    no command is built. *)
Lemma well_formed_line_rejected :
  splitString (str "cmd a={") 32 = [str "cmd"; str "a={"] /\
  splitString (str "a={") 61 = [str "a"; str "{"] /\
  (forall JSON (json_Unmarshal : gostring -> JSON + gostring) caseLower msg,
     json_Unmarshal (str "{") = inr msg ->
     buildQMPCommand JSON json_Unmarshal caseLower (str "cmd a={")
     = ([str "{" ++ [10]], Err (Errorf (str "JSON parsing error: " ++ msg)))) /\
  buildQMPCommand example_JSON example_Unmarshal example_caseLower (str "cmd a={")
  = ([str "{" ++ [10]],
     Err (Errorf (str "JSON parsing error: unexpected end of JSON input"))).
Proof.
  split; [reflexivity |]. split; [reflexivity |]. split; [| reflexivity].
  intros JSON json_Unmarshal caseLower msg Hmsg.
  unfold buildQMPCommand.
  change (splitString (str "cmd a={") 32) with [str "cmd"; str "a={"].
  cbn [forRange].
  rewrite (buildQMPCommand_arg_pair JSON json_Unmarshal caseLower ∅
             (str "a={") (str "a") (str "{") eq_refl).
  change (Strings.Trim (str "{") [34; 39]) with (str "{").
  rewrite coerceValue_structured by (exists 123, []; split; [reflexivity | now left]).
  rewrite Hmsg. reflexivity.
Qed.

(** A value that is only quotes is trimmed to nothing, and the test of
    its first byte panics. *)
Lemma empty_quoted_value_panics :
  forall JSON (json_Unmarshal : gostring -> JSON + gostring) caseLower,
    buildQMPCommand JSON json_Unmarshal caseLower (str "cmd a=" ++ DQ ++ DQ) = ([], Panic).
Proof. intros. reflexivity. Qed.

(** C3 at the line [info balloon]: one argument, the line as a string. *)
Lemma HMP_line_wrapped_witness :
  outcome (executeCommand_build example_JSON example_Unmarshal example_caseLower
             true (str "info balloon"))
  = Ok (mkQMPCommand (str "human-monitor-command")
          {[ str "command-line" := VString (str "info balloon") ]}).
Proof.
  apply (HMP_line_wrapped example_JSON example_Unmarshal example_caseLower (str "info balloon")).
  - discriminate.
  - compute_done.
  - discriminate.
  - discriminate.
  - reflexivity.
Defined.

(** C3 as stated fails on a line that reads as a boolean, and on a line
    in double quotes, which lose their quotes. *)
Lemma HMP_line_not_verbatim :
  (forall JSON (json_Unmarshal : gostring -> JSON + gostring) caseLower,
     executeCommand_build JSON json_Unmarshal caseLower true (str "true")
     = ret (mkQMPCommand (str "human-monitor-command")
              {[ str "command-line" := VBool true ]})) /\
  (forall JSON (json_Unmarshal : gostring -> JSON + gostring) caseLower,
     executeCommand_build JSON json_Unmarshal caseLower true (DQ ++ str "stop" ++ DQ)
     = ret (mkQMPCommand (str "human-monitor-command")
              {[ str "command-line" := VString (str "stop") ]})).
Proof. split; intros; vm_compute; reflexivity. Qed.

(** C4 at the token [a='x']: the value stored is [x]. *)
Lemma value_quotes_trimmed_witness :
  splitString (str "a='x'") 61 = [str "a"; str "'x'"] /\
  buildQMPCommand_arg example_JSON example_Unmarshal example_caseLower ∅ (str "a='x'")
  = ret {[ str "a" := VString (str "x") ]}.
Proof.
  split; [reflexivity |].
  rewrite (proj1 (value_quotes_trimmed example_JSON example_Unmarshal example_caseLower
                    ∅ (str "a='x'") (str "a") (str "'x'") eq_refl)).
  reflexivity.
Defined.

(** C4 as stated fails on nested and on unmatched quotes: every quote at
    either end goes, where one layer would leave ['x'] in the first
    value and the whole of the second. *)
Lemma more_than_one_layer_stripped :
  Strings.Trim (DQ ++ str "'x'" ++ DQ) [34; 39] = str "x" /\
  strip_one_layer (DQ ++ str "'x'" ++ DQ) = str "'x'" /\
  Strings.Trim (DQ ++ str "x") [34; 39] = str "x" /\
  strip_one_layer (DQ ++ str "x") = DQ ++ str "x" /\
  (forall JSON (json_Unmarshal : gostring -> JSON + gostring) caseLower,
     buildQMPCommand JSON json_Unmarshal caseLower (str "cmd a=" ++ DQ ++ str "'x'" ++ DQ)
     = ret (mkQMPCommand (str "cmd") {[ str "a" := VString (str "x") ]})).
Proof.
  repeat split; intros; vm_compute; reflexivity.
Qed.

(** C6 at the line [cmd a=1 x]: refused at the token [x]. *)
Lemma buildQMPCommand_failures_witness :
  buildQMPCommand example_JSON example_Unmarshal example_caseLower (str "cmd a=1 x")
  = ([], Err ErrBadCommandFormat).
Proof.
  apply (proj1 (proj2 (buildQMPCommand_failures example_JSON example_Unmarshal
                         example_caseLower))
           (str "cmd a=1 x") (str "cmd") [str "a=1"] (str "x") [] []
           {[ str "a" := VInt 1 ]}).
  - reflexivity.
  - vm_compute. reflexivity.
  - vm_compute. lia.
Defined.

(** C6 as stated fails: the empty line and a token without [=] are
    refused with the same error, and so are two different bad tokens;
    the error names none of them. *)
Lemma one_error_for_all_format_failures :
  (forall JSON (json_Unmarshal : gostring -> JSON + gostring) caseLower,
     buildQMPCommand JSON json_Unmarshal caseLower [] = ([], Err ErrBadCommandFormat)) /\
  (forall JSON (json_Unmarshal : gostring -> JSON + gostring) caseLower,
     buildQMPCommand JSON json_Unmarshal caseLower (str "cmd x")
     = ([], Err ErrBadCommandFormat)) /\
  (forall JSON (json_Unmarshal : gostring -> JSON + gostring) caseLower,
     buildQMPCommand JSON json_Unmarshal caseLower (str "cmd y=1=2")
     = ([], Err ErrBadCommandFormat)).
Proof. repeat split; intros; reflexivity. Qed.

(** C10 at the line [cmd a=1 b={ c=2]: the text of [b] is written and
    the parse fails. *)
Lemma structured_value_printed_witness :
  buildQMPCommand example_JSON example_Unmarshal example_caseLower (str "cmd a=1 b={ c=2")
  = ([str "{" ++ [10]],
     Err (Errorf (str "JSON parsing error: unexpected end of JSON input"))).
Proof.
  assert (Hpre : forRange (buildQMPCommand_arg example_JSON example_Unmarshal example_caseLower)
                   [str "a=1"] ∅ = ([], Ok {[ str "a" := VInt 1 ]}))
    by (vm_compute; reflexivity).
  assert (Hstruct : looks_structured (Strings.Trim (str "{") [34; 39]))
    by (exists 123, []; split; [reflexivity | now left]).
  apply (proj2 (structured_value_printed example_JSON example_Unmarshal example_caseLower
                  (str "cmd a=1 b={ c=2") (str "cmd") [str "a=1"] (str "b={") [str "c=2"]
                  (str "b") (str "{") [] {[ str "a" := VInt 1 ]}
                  eq_refl Hpre eq_refl Hstruct)).
  reflexivity.
Defined.

(** C10 as stated fails for a token that the loop does not reach: the
    value of [a={}] begins with [{], and the line is refused at [x]
    with nothing written. *)
Lemma unreached_value_not_printed :
  splitString (str "cmd x a={}") 32 = [str "cmd"; str "x"; str "a={}"] /\
  splitString (str "a={}") 61 = [str "a"; str "{}"] /\
  Strings.Trim (str "{}") [34; 39] = str "{}" /\
  (forall JSON (json_Unmarshal : gostring -> JSON + gostring) caseLower,
     buildQMPCommand JSON json_Unmarshal caseLower (str "cmd x a={}")
     = ([], Err ErrBadCommandFormat)).
Proof. repeat split; intros; vm_compute; reflexivity. Qed.





(** C9 at the entry [query-status] and the input [QUERY]. *)
Lemma completer_lower_cases_input_witness :
  str "query-status" ∈ completer example_caseLower [str "query-status"] (str "QUERY").
Proof.
  apply (proj2 (completer_lower_cases_input example_caseLower [str "query-status"]
                  (str "QUERY") (str "query-status"))).
  - compute_done.
  - reflexivity.
  - exists (str "-status"). reflexivity.
Defined.

(** C9 as stated fails on an entry with a capital: the input matches it
    up to case, and even letter for letter, and it is not returned. *)
Lemma capital_entry_never_completed :
  (forall caseLower, ci_has_prefix caseLower (str "info Show") (str "info s")) /\
  (forall caseLower, completer caseLower [str "info Show"] (str "info s") = []) /\
  (forall caseLower, completer caseLower [str "info Show"] (str "info S") = []).
Proof.
  split; [| split]; intros caseLower.
  - exists (str "how"). reflexivity.
  - reflexivity.
  - reflexivity.
Qed.

(** * Further properties of the code *)

(** ** Tokens *)

Lemma fields_from_nonempty {St : Type} (f : St -> rune -> St * bool) (s : gostring) :
  forall st cur, Forall (fun t => t <> []) (fields_from f st cur s).
Proof.
  induction s as [|c s IH]; intros st cur; cbn [fields_from].
  - destruct cur; cbn; [constructor | constructor; [discriminate | constructor]].
  - destruct (f st c) as [st' sep]. destruct sep; [| apply IH].
    apply Forall_app. split; [| apply IH].
    destruct cur; cbn; [constructor | constructor; [discriminate | constructor]].
Qed.

(** X1: whatever the separator, [splitString] returns no empty token, so
    a token has a positive length: the test [len(parts[1]) == 0] of
    [buildQMPCommand] never holds. *)
Theorem splitString_no_empty_token (s : gostring) (sep : rune) (t : gostring) :
  t ∈ splitString s sep -> t <> [] /\ 0 < len t.
Proof.
  intros Hin. unfold splitString in Hin. rewrite FieldsFunc_fields in Hin.
  pose proof (fields_from_nonempty (splitString_f sep) s 0 []) as Hall.
  rewrite Forall_forall in Hall. specialize (Hall t Hin).
  split; [exact Hall |].
  pose proof (len_nonempty t Hall) as Hlen. apply Z.eqb_neq in Hlen.
  assert (Hge : forall u, 0 <= len u).
  { induction u as [|x u IHu]; [cbn; lia |].
    change (len (x :: u)) with (Utf8.RuneLen x + len u).
    pose proof (RuneLen_pos x). lia. }
  specialize (Hge t). lia.
Qed.

Lemma splitString_no_empty_token_witness :
  str "vnc" <> [] /\ 0 < len (str "vnc").
Proof.
  apply (splitString_no_empty_token (str "protocol=vnc") 61 (str "vnc")).
  compute_done.
Defined.

Lemma scan_state_app (isSeparator : rune -> bool) (a : gostring) :
  forall st st' b,
    scan_state isSeparator st a = Some st' ->
    scan_state isSeparator st (a ++ b) = scan_state isSeparator st' b.
Proof.
  induction a as [|c a IH]; intros st st' b Ha; cbn in *.
  - now injection Ha as ->.
  - destruct (tokenizer_step isSeparator st c) as [st1 ends].
    destruct ends; [discriminate |]. now apply IH.
Qed.

Lemma tokens_from_kept (isSeparator : rune -> bool) (a : gostring) :
  forall st st' cur rest,
    scan_state isSeparator st a = Some st' ->
    tokens_from isSeparator st cur (a ++ rest) = tokens_from isSeparator st' (cur ++ a) rest.
Proof.
  induction a as [|c a IH]; intros st st' cur rest Ha; cbn in *.
  - injection Ha as ->. now rewrite app_nil_r.
  - destruct (tokenizer_step isSeparator st c) as [st1 ends].
    destruct ends; [discriminate |].
    rewrite (IH st1 st' (cur ++ [c]) rest Ha). now rewrite <- app_assoc.
Qed.

Lemma tokenizer_step_ends (isSeparator : rune -> bool) (st st' : QuoteState) (c : rune) :
  tokenizer_step isSeparator st c = (st', true) -> st = Normal /\ st' = Normal.
Proof.
  unfold tokenizer_step. destruct st as [|q].
  - destruct (Unicode.Is Unicode.Quotation_Mark c); [discriminate |].
    intros H. inversion H. split; reflexivity.
  - destruct (c =? q); discriminate.
Qed.

Lemma tokens_from_retokenize (isSeparator : rune -> bool) (s : gostring) :
  forall st cur,
    scan_state isSeparator Normal cur = Some st ->
    Forall (fun t => tokenize isSeparator t = [t]) (tokens_from isSeparator st cur s).
Proof.
  assert (Hemit : forall st cur, scan_state isSeparator Normal cur = Some st ->
            Forall (fun t => tokenize isSeparator t = [t]) (emit cur)).
  { intros st cur Hcur. destruct cur as [|x cur]; [constructor |].
    constructor; [| constructor]. unfold tokenize.
    rewrite <- (app_nil_r (x :: cur)) at 1.
    rewrite (tokens_from_kept isSeparator (x :: cur) Normal st [] [] Hcur). reflexivity. }
  induction s as [|c s IH]; intros st cur Hcur; cbn [tokens_from].
  - eapply Hemit. exact Hcur.
  - destruct (tokenizer_step isSeparator st c) as [st1 ends] eqn:Hstep.
    destruct ends.
    + apply tokenizer_step_ends in Hstep. destruct Hstep as [-> ->].
      apply Forall_app. split; [eapply Hemit; exact Hcur | now apply IH].
    + apply IH. rewrite (scan_state_app isSeparator cur Normal st [c] Hcur).
      cbn. now rewrite Hstep.
Qed.

(** X2: splitting is idempotent: each token that [splitString] returns,
    split again on the same separator, is that one token. *)
Theorem splitString_token_resplit (s : gostring) (sep : rune) :
  sep <> 0 -> Forall (fun t => splitString t sep = [t]) (splitString s sep).
Proof.
  intros Hsep. rewrite splitString_tokenize by exact Hsep.
  eapply Forall_impl.
  - apply (tokens_from_retokenize (separator_test sep) s Normal []). reflexivity.
  - intros t Ht. cbn beta in Ht. now rewrite splitString_tokenize.
Qed.

Lemma splitString_token_resplit_witness :
  Forall (fun t => splitString t 32 = [t])
    (splitString (str "set_link name='alice 1' up=true") 32).
Proof. apply splitString_token_resplit. discriminate. Defined.

(** ** White space around a line *)

Lemma IsSpace_not_quotation (c : rune) :
  Unicode.IsSpace c = true -> Unicode.Is Unicode.Quotation_Mark c = false.
Proof.
  intros Hs. destruct (Unicode.Is Unicode.Quotation_Mark c) eqn:Hq; [exfalso | reflexivity].
  unfold Unicode.Is, Unicode.Quotation_Mark in Hq. cbn [existsb] in Hq.
  rewrite !orb_true_iff, !andb_true_iff, !Z.leb_le in Hq.
  unfold Unicode.IsSpace in Hs.
  destruct ((0 <=? c) && (c <=? 255)) eqn:Hlatin.
  - rewrite !orb_true_iff, !Z.eqb_eq in Hs. lia.
  - apply andb_false_iff in Hlatin. rewrite !Z.leb_gt in Hlatin.
    unfold Unicode.Is, Unicode.White_Space in Hs. cbn [existsb] in Hs.
    rewrite !orb_true_iff, !andb_true_iff, !Z.leb_le in Hs. lia.
Qed.

Lemma tokenizer_step_space (c : rune) :
  Unicode.IsSpace c = true -> tokenizer_step Unicode.IsSpace Normal c = (Normal, true).
Proof.
  intros Hs. unfold tokenizer_step. now rewrite (IsSpace_not_quotation c Hs), Hs.
Qed.

Lemma tokens_from_spaces (ws : gostring) :
  Forall (fun c => Unicode.IsSpace c = true) ws ->
  forall cur, tokens_from Unicode.IsSpace Normal cur ws = emit cur.
Proof.
  induction 1 as [|c ws Hc Hws IH]; intros cur; cbn [tokens_from]; [reflexivity |].
  rewrite (tokenizer_step_space c Hc), IH. cbn. apply app_nil_r.
Qed.

Lemma tokens_from_leading_spaces (ws s : gostring) :
  Forall (fun c => Unicode.IsSpace c = true) ws ->
  tokens_from Unicode.IsSpace Normal [] (ws ++ s) = tokens_from Unicode.IsSpace Normal [] s.
Proof.
  induction 1 as [|c ws Hc Hws IH]; cbn [app tokens_from]; [reflexivity |].
  now rewrite (tokenizer_step_space c Hc).
Qed.

Lemma tokens_from_trailing_spaces (ws s : gostring) :
  Forall (fun c => Unicode.IsSpace c = true) ws ->
  forall st cur,
    quote_state_after Unicode.IsSpace st s = Normal ->
    tokens_from Unicode.IsSpace st cur (s ++ ws) = tokens_from Unicode.IsSpace st cur s.
Proof.
  intros Hws. induction s as [|c s IH]; intros st cur Hclosed.
  - cbn in Hclosed. subst st. cbn [app tokens_from]. now apply tokens_from_spaces.
  - cbn [app tokens_from]. unfold quote_state_after in Hclosed. cbn [fold_left] in Hclosed.
    destruct (tokenizer_step Unicode.IsSpace st c) as [st1 ends]. cbn [fst] in Hclosed.
    destruct ends; now rewrite IH.
Qed.

Lemma splitString_surrounding_spaces (ws1 ws2 cmdline : gostring) :
  Forall (fun c => Unicode.IsSpace c = true) ws1 ->
  Forall (fun c => Unicode.IsSpace c = true) ws2 ->
  quotes_closed cmdline ->
  splitString (ws1 ++ cmdline ++ ws2) 32 = splitString cmdline 32.
Proof.
  intros H1 H2 Hclosed. rewrite !splitString_tokenize by discriminate.
  change (separator_test 32) with Unicode.IsSpace. unfold tokenize.
  rewrite (tokens_from_leading_spaces ws1 _ H1).
  now apply tokens_from_trailing_spaces.
Qed.

Section Lines.

Variable JSON : Type.
Variable json_Unmarshal : gostring -> JSON + gostring.
Variable caseLower : rune -> rune.

Local Abbreviation coerceValue' := (coerceValue JSON json_Unmarshal caseLower).
Local Abbreviation buildQMPCommand_arg' := (buildQMPCommand_arg JSON json_Unmarshal caseLower).
Local Abbreviation buildQMPCommand' := (buildQMPCommand JSON json_Unmarshal caseLower).
Local Abbreviation executeCommand_build' := (executeCommand_build JSON json_Unmarshal caseLower).

(** X3: a line made of white space only (the empty line, blanks, a bare
    line feed) is refused with [ErrBadCommandFormat] and nothing is
    written. *)
Theorem blank_line_refused (cmdline : gostring) :
  Forall (fun c => Unicode.IsSpace c = true) cmdline ->
  buildQMPCommand' cmdline = ([], Err ErrBadCommandFormat).
Proof.
  intros Hblank. unfold buildQMPCommand.
  rewrite splitString_tokenize by discriminate.
  change (separator_test 32) with Unicode.IsSpace. unfold tokenize.
  now rewrite (tokens_from_spaces cmdline Hblank).
Qed.

(** X4: white space before and after a line whose quoted spans are all
    closed changes nothing: the same command is built, with the same
    output.  In particular the line feed that [ReadString] leaves at the
    end of the line read from standard input is dropped. *)
Theorem surrounding_space_ignored (ws1 ws2 cmdline : gostring) :
  Forall (fun c => Unicode.IsSpace c = true) ws1 ->
  Forall (fun c => Unicode.IsSpace c = true) ws2 ->
  quotes_closed cmdline ->
  buildQMPCommand' (ws1 ++ cmdline ++ ws2) = buildQMPCommand' cmdline.
Proof.
  intros H1 H2 Hclosed. unfold buildQMPCommand.
  now rewrite (splitString_surrounding_spaces ws1 ws2 cmdline H1 H2 Hclosed).
Qed.

End Lines.

Lemma blank_line_refused_witness :
  buildQMPCommand example_JSON example_Unmarshal example_caseLower [32; 9; 10]
  = ([], Err ErrBadCommandFormat).
Proof.
  apply blank_line_refused. repeat constructor.
Defined.

Lemma surrounding_space_ignored_witness :
  buildQMPCommand example_JSON example_Unmarshal example_caseLower
    ([32] ++ str "set_password protocol=vnc password='se cret'" ++ [13; 10])
  = buildQMPCommand example_JSON example_Unmarshal example_caseLower
      (str "set_password protocol=vnc password='se cret'").
Proof.
  apply surrounding_space_ignored.
  - repeat constructor.
  - repeat constructor.
  - reflexivity.
Defined.

(** ** What a command is made of, and what building it writes *)

Lemma stdout_bind {A B} (x : M A) (k : A -> M B) :
  stdout (bind x k)
  = stdout x ++ match outcome x with Ok a => stdout (k a) | _ => [] end.
Proof.
  destruct x as [out [a | e |]]; cbn [outcome stdout fst snd].
  - now rewrite bind_ok.
  - cbn. now rewrite app_nil_r.
  - cbn. now rewrite app_nil_r.
Qed.

Section Commands.

Variable JSON : Type.
Variable json_Unmarshal : gostring -> JSON + gostring.
Variable caseLower : rune -> rune.

Local Abbreviation coerceValue' := (coerceValue JSON json_Unmarshal caseLower).
Local Abbreviation buildQMPCommand_arg' := (buildQMPCommand_arg JSON json_Unmarshal caseLower).
Local Abbreviation buildQMPCommand' := (buildQMPCommand JSON json_Unmarshal caseLower).

Lemma coerceValue_stdout (raw line : gostring) :
  line ∈ stdout (coerceValue' raw) -> line = raw ++ [10] /\ looks_structured raw.
Proof.
  unfold coerceValue.
  destruct (streq (Strings.ToLower caseLower raw) (str "true")); [intros H; inversion H |].
  destruct (streq (Strings.ToLower caseLower raw) (str "false")); [intros H; inversion H |].
  destruct raw as [|c rest]; [intros H; inversion H |].
  destruct ((c =? 123) || (c =? 91)) eqn:Hc.
  - intros Hin. split; [| now apply looks_structured_head].
    unfold bind, Println in Hin.
    destruct (json_Unmarshal (c :: rest)); cbn in Hin;
      apply list_elem_of_singleton in Hin; exact Hin.
  - destruct (Strconv.ParseInt (c :: rest)) as [d [e |]]; intros H; inversion H.
Qed.

Lemma buildQMPCommand_arg_stdout (m : gmap gostring (Value JSON)) (arg line : gostring) :
  line ∈ stdout (buildQMPCommand_arg' m arg) ->
  exists key value,
    splitString arg 61 = [key; value] /\
    looks_structured (Strings.Trim value [34; 39]) /\
    line = Strings.Trim value [34; 39] ++ [10].
Proof.
  unfold buildQMPCommand_arg.
  destruct (splitString arg 61) as [|key [|value [|x parts]]];
    try (intros H; inversion H; fail).
  destruct (len value =? 0); [intros H; inversion H |].
  rewrite stdout_bind. intros Hin. apply elem_of_app in Hin. destruct Hin as [Hin | Hin].
  - apply coerceValue_stdout in Hin. destruct Hin as [-> Hs].
    exists key, value. repeat split. exact Hs.
  - destruct (outcome (coerceValue' (Strings.Trim value [34; 39]))); inversion Hin.
Qed.

(** X5: every text that [buildQMPCommand] writes to standard output
    comes from a key=value token of the line after the name: it is the
    value of that token with its ASCII quotes trimmed, which begins with
    [{] or [[], followed by a line feed.  So a line none of whose
    tokens has such a value is built with nothing written. *)
Theorem buildQMPCommand_writes_structured_only (cmdline : gostring) :
  (forall line,
     line ∈ stdout (buildQMPCommand' cmdline) ->
     exists arg key value,
       arg ∈ tail (splitString cmdline 32) /\
       splitString arg 61 = [key; value] /\
       looks_structured (Strings.Trim value [34; 39]) /\
       line = Strings.Trim value [34; 39] ++ [10]) /\
  ((forall arg key value,
      arg ∈ tail (splitString cmdline 32) ->
      splitString arg 61 = [key; value] ->
      ~ looks_structured (Strings.Trim value [34; 39])) ->
   stdout (buildQMPCommand' cmdline) = []).
Proof.
  assert (Hall : forall line,
            line ∈ stdout (buildQMPCommand' cmdline) ->
            exists arg key value,
              arg ∈ tail (splitString cmdline 32) /\
              splitString arg 61 = [key; value] /\
              looks_structured (Strings.Trim value [34; 39]) /\
              line = Strings.Trim value [34; 39] ++ [10]).
  { intros line. unfold buildQMPCommand.
    destruct (splitString cmdline 32) as [|name args]; [intros H; inversion H |].
    cbn [tail]. rewrite stdout_bind.
    assert (Hloop : forall m, line ∈ stdout (forRange buildQMPCommand_arg' args m) ->
              exists arg key value,
                arg ∈ args /\
                splitString arg 61 = [key; value] /\
                looks_structured (Strings.Trim value [34; 39]) /\
                line = Strings.Trim value [34; 39] ++ [10]).
    { induction args as [|arg args IH]; intros m Hin; [inversion Hin |].
      cbn [forRange] in Hin. rewrite stdout_bind in Hin.
      apply elem_of_app in Hin. destruct Hin as [Hin | Hin].
      - destruct (buildQMPCommand_arg_stdout m arg line Hin) as (key & value & Hp & Hs & ->).
        exists arg, key, value. split; [apply elem_of_cons; now left | easy].
      - destruct (outcome (buildQMPCommand_arg' m arg)) as [m1 | e |];
          [| inversion Hin | inversion Hin].
        destruct (IH m1 Hin) as (arg' & key & value & Harg & Hrest).
        exists arg', key, value. split; [apply elem_of_cons; now right | exact Hrest]. }
    intros Hin. apply elem_of_app in Hin. destruct Hin as [Hin | Hin].
    - eapply Hloop. exact Hin.
    - destruct (outcome (forRange buildQMPCommand_arg' args ∅)); inversion Hin. }
  split; [exact Hall |].
  intros Hnone.
  destruct (stdout (buildQMPCommand' cmdline)) as [|line out] eqn:Hout; [reflexivity |].
  exfalso.
  assert (Hin : line ∈ line :: out) by (apply elem_of_cons; now left).
  destruct (Hall line Hin) as (arg & key & value & Harg & Hp & Hs & _).
  exact (Hnone arg key value Harg Hp Hs).
Qed.

Lemma buildQMPCommand_arg_key (m m1 : gmap gostring (Value JSON)) (arg : gostring) :
  outcome (buildQMPCommand_arg' m arg) = Ok m1 ->
  exists key v, key <> [] /\ key ∈ splitString arg 61 /\ m1 = <[key := v]> m.
Proof.
  unfold buildQMPCommand_arg.
  pose proof (splitString_nonempty arg 61 ltac:(discriminate)) as Hall.
  destruct (splitString arg 61) as [|key [|value [|x parts]]]; try discriminate.
  destruct (len value =? 0); [discriminate |].
  destruct (coerceValue' (Strings.Trim value [34; 39])) as [out [v | e |]]; try discriminate.
  rewrite bind_ok. cbn. intros [= <-].
  exists key, v. split; [now inversion Hall |]. split; [| reflexivity].
  apply elem_of_cons. now left.
Qed.

Lemma forRange_keys_nonempty (args : list gostring) :
  forall (m m' : gmap gostring (Value JSON)),
    (forall key, is_Some (m !! key) -> key <> []) ->
    outcome (forRange buildQMPCommand_arg' args m) = Ok m' ->
    forall key, is_Some (m' !! key) -> key <> [].
Proof.
  induction args as [|arg args IH]; intros m m' Hm Hrun.
  - cbn in Hrun. injection Hrun as <-. exact Hm.
  - cbn [forRange] in Hrun.
    destruct (buildQMPCommand_arg' m arg) as [out [m1 | e |]] eqn:Harg; try discriminate Hrun.
    rewrite bind_ok in Hrun. cbn [outcome snd] in Hrun.
    assert (Hout : outcome (buildQMPCommand_arg' m arg) = Ok m1) by (now rewrite Harg).
    destruct (buildQMPCommand_arg_key m m1 arg Hout) as (k & v & Hk & _ & ->).
    apply (IH (<[k := v]> m) m'); [| exact Hrun].
    intros key Hsome. destruct (decide (k = key)) as [<- | Hne]; [exact Hk |].
    rewrite lookup_insert_ne in Hsome by exact Hne. now apply Hm.
Qed.

(** X6: a command that [buildQMPCommand] returns has a non-empty name,
    the first token of the line, and every key of its arguments is
    non-empty. *)
Theorem built_command_names_nonempty (cmdline : gostring) (cmd : QMPCommand JSON) :
  outcome (buildQMPCommand' cmdline) = Ok cmd ->
  Name cmd <> [] /\
  head (splitString cmdline 32) = Some (Name cmd) /\
  forall key, is_Some (Arguments cmd !! key) -> key <> [].
Proof.
  unfold buildQMPCommand.
  pose proof (splitString_nonempty cmdline 32 ltac:(discriminate)) as Hall.
  destruct (splitString cmdline 32) as [|name args]; [discriminate |].
  destruct (forRange buildQMPCommand_arg' args ∅) as [out [m | e |]] eqn:Hrun; try discriminate.
  cbn. intros [= <-]. cbn [Name Arguments].
  split; [now inversion Hall |]. split; [reflexivity |].
  apply (forRange_keys_nonempty args ∅ m).
  - intros key [v Hv]. rewrite lookup_empty in Hv. discriminate.
  - now rewrite Hrun.
Qed.

End Commands.

Lemma buildQMPCommand_writes_structured_only_witness :
  stdout (buildQMPCommand example_JSON example_Unmarshal example_caseLower
            (str "cmd a=1 b='x'")) = [].
Proof.
  apply (proj2 (buildQMPCommand_writes_structured_only example_JSON example_Unmarshal
                  example_caseLower (str "cmd a=1 b='x'"))).
  intros arg key value Harg Hparts (c & rest & Hraw & Hc).
  apply list_elem_of_In in Harg. vm_compute in Harg.
  destruct Harg as [<- | [<- | []]]; vm_compute in Hparts;
    injection Hparts as <- <-; vm_compute in Hraw; injection Hraw as <- <-;
    destruct Hc; discriminate.
Defined.

Lemma built_command_names_nonempty_witness :
  Name (mkQMPCommand (JSON := example_JSON) (str "cmd") {[ str "a" := VInt 1 ]}) <> [] /\
  head (splitString (str "cmd a=1") 32)
  = Some (Name (mkQMPCommand (JSON := example_JSON) (str "cmd") {[ str "a" := VInt 1 ]})) /\
  forall key,
    is_Some (Arguments (mkQMPCommand (JSON := example_JSON) (str "cmd")
                          {[ str "a" := VInt 1 ]}) !! key) ->
    key <> [].
Proof.
  apply (built_command_names_nonempty example_JSON example_Unmarshal example_caseLower
           (str "cmd a=1")).
  vm_compute. reflexivity.
Defined.

(** ** Numbers and quoted values *)

Lemma TrimLeft_cut (cutset l s : gostring) :
  Forall (fun c => Strings.inCutset cutset c = true) l ->
  Strings.TrimLeft (l ++ s) cutset = Strings.TrimLeft s cutset.
Proof.
  induction 1 as [|c l Hc Hl IH]; cbn [app Strings.TrimLeft]; [reflexivity |].
  now rewrite Hc.
Qed.

(** [strings.Trim] gives back a text that has no cutset character at
    either end, whatever cutset characters are put around it. *)
Lemma Trim_inner (cutset l s r : gostring) (c d : rune) (front : gostring) :
  Forall (fun x => Strings.inCutset cutset x = true) l ->
  Forall (fun x => Strings.inCutset cutset x = true) r ->
  head s = Some c -> Strings.inCutset cutset c = false ->
  s = front ++ [d] -> Strings.inCutset cutset d = false ->
  Strings.Trim (l ++ s ++ r) cutset = s.
Proof.
  intros Hl Hr Hhead Hc Hlast Hd.
  unfold Strings.Trim, Strings.TrimRight.
  rewrite !rev_app_distr, <- app_assoc.
  rewrite (TrimLeft_cut cutset (rev r)) by (now apply List.Forall_rev).
  assert (Hrev : rev s = d :: rev front)
    by (rewrite Hlast, rev_app_distr; reflexivity).
  rewrite Hrev. cbn [app]. rewrite TrimLeft_stop by exact Hd.
  change (d :: rev front ++ rev l) with ((d :: rev front) ++ rev l).
  rewrite <- Hrev, <- rev_app_distr, rev_involutive.
  rewrite (TrimLeft_cut cutset l s Hl).
  destruct s as [|x s']; [discriminate |]. injection Hhead as ->.
  now apply TrimLeft_stop.
Qed.

(** A text with no quotation mark and no separator is kept whole. *)
Lemma scan_state_plain (isSeparator : rune -> bool) (a : gostring) :
  Forall (fun c => Unicode.Is Unicode.Quotation_Mark c = false /\ isSeparator c = false) a ->
  scan_state isSeparator Normal a = Some Normal.
Proof.
  induction 1 as [|c a [Hq Hs] Ha IH]; cbn [scan_state tokenizer_step]; [reflexivity |].
  now rewrite Hq, Hs.
Qed.

Lemma ParseUint_loop_digits_syntax (s : gostring) :
  forall n v, 0 <= n <= Strconv.maxUint64 -> Forall is_digit s ->
    Strconv.ParseUint_loop s n = (v, Some Strconv.ErrSyntax) -> False.
Proof.
  induction s as [|x s IH]; intros n v Hn Hs; [discriminate |].
  inversion Hs as [|? ? Hx Hs']; subst.
  rewrite ParseUint_loop_digit by assumption.
  destruct (Z.leb_spec (10 * n + (x - 48)) Strconv.maxUint64); [| discriminate].
  unfold is_digit in Hx. apply IH; [lia | exact Hs'].
Qed.

Section Values.

Variable JSON : Type.
Variable json_Unmarshal : gostring -> JSON + gostring.
Variable caseLower : rune -> rune.

Local Abbreviation coerceValue' := (coerceValue JSON json_Unmarshal caseLower).
Local Abbreviation buildQMPCommand_arg' := (buildQMPCommand_arg JSON json_Unmarshal caseLower).

(** A value whose first character is a digit or a minus sign goes to
    [strconv.ParseInt]. *)
Lemma coerceValue_number (c : rune) (rest : gostring) :
  is_digit c \/ c = 45 ->
  coerceValue' (c :: rest) =
    match Strconv.ParseInt (c :: rest) with
    | (d, None) => ret (VInt d)
    | (_, Some _) => ret (VString (c :: rest))
    end.
Proof.
  intros Hc. unfold coerceValue.
  assert (Hlow : Unicode.ToLower caseLower c = c).
  { unfold Unicode.ToLower, is_digit in *.
    destruct (Z.leb_spec c 127); [| lia].
    destruct (Z.leb_spec 65 c); [lia | reflexivity]. }
  assert (Ht : streq (Strings.ToLower caseLower (c :: rest)) (str "true") = false).
  { apply streq_false. cbn [Strings.ToLower map]. rewrite Hlow. intros [= -> _].
    unfold is_digit in Hc. lia. }
  assert (Hf : streq (Strings.ToLower caseLower (c :: rest)) (str "false") = false).
  { apply streq_false. cbn [Strings.ToLower map]. rewrite Hlow. intros [= -> _].
    unfold is_digit in Hc. lia. }
  rewrite Ht, Hf.
  replace ((c =? 123) || (c =? 91)) with false
    by (symmetry; apply orb_false_iff; unfold is_digit in Hc; lia).
  destruct (Strconv.ParseInt (c :: rest)) as [d [e |]]; reflexivity.
Qed.

Lemma ParseInt_unsigned_range (neg : bool) (ds : gostring) :
  ds <> [] -> Forall is_digit ds ->
  exists v,
    ParseInt_unsigned neg ds =
      (v, if (if neg then digits_from 0 ds <=? 2 ^ 63 else digits_from 0 ds <=? 2 ^ 63 - 1)
          then None else Some Strconv.ErrRange) /\
    ((if neg then digits_from 0 ds <=? 2 ^ 63 else digits_from 0 ds <=? 2 ^ 63 - 1) = true ->
     v = if neg then - digits_from 0 ds else digits_from 0 ds).
Proof.
  intros Hne Hds.
  pose proof (digits_from_ge ds 0 ltac:(lia) Hds) as Hpos.
  pose proof (ParseInt_unsigned_spec neg ds) as Hspec.
  destruct (if neg then digits_from 0 ds <=? 2 ^ 63 else digits_from 0 ds <=? 2 ^ 63 - 1)
    eqn:Hfit.
  - exists (if neg then - digits_from 0 ds else digits_from 0 ds). split; [| reflexivity].
    apply Hspec. split; [exact Hne |]. split; [exact Hds |]. split; [reflexivity |].
    destruct neg; [apply Z.leb_le in Hfit | apply Z.leb_le in Hfit]; lia.
  - destruct (ParseInt_unsigned neg ds) as [v [e |]] eqn:Hrun.
    + exists v. split; [| discriminate]. f_equal. f_equal.
      unfold ParseInt_unsigned in Hrun.
      destruct (Strconv.ParseUint ds) as [un [[|] |]] eqn:HU.
      * destruct ds as [|c ds']; [congruence |].
        change (Strconv.ParseUint (c :: ds')) with (Strconv.ParseUint_loop (c :: ds') 0) in HU.
        exfalso.
        refine (ParseUint_loop_digits_syntax _ 0 _ _ Hds HU). unfold Strconv.maxUint64. lia.
      * cbv zeta in Hrun. destruct neg; cbn [negb andb] in Hrun.
        -- destruct (un >? 2 ^ 63); congruence.
        -- destruct (un >=? 2 ^ 63); congruence.
      * cbv zeta in Hrun. destruct neg; cbn [negb andb] in Hrun.
        -- destruct (un >? 2 ^ 63); congruence.
        -- destruct (un >=? 2 ^ 63); congruence.
    + exfalso. clear Hspec. apply ParseInt_unsigned_spec in Hrun.
      destruct Hrun as (_ & _ & -> & Hr).
      destruct neg; apply Z.leb_gt in Hfit; lia.
Qed.

(** X7: a value of decimal digits becomes the integer it writes when
    that fits 64 signed bits, alone or after a minus sign; a number
    beyond the range is neither refused nor wrapped around: it is kept
    as the text that was typed. *)
Theorem decimal_value_coercion (ds : gostring) :
  ds <> [] -> Forall is_digit ds ->
  coerceValue' ds
  = ret (if digits_from 0 ds <=? 2 ^ 63 - 1 then VInt (digits_from 0 ds) else VString ds) /\
  coerceValue' (45 :: ds)
  = ret (if digits_from 0 ds <=? 2 ^ 63 then VInt (- digits_from 0 ds)
         else VString (45 :: ds)).
Proof.
  intros Hne Hds. split.
  - destruct ds as [|c ds']; [congruence |].
    assert (Hc : is_digit c) by (now inversion Hds).
    rewrite coerceValue_number by (now left). rewrite ParseInt_sign.
    unfold is_digit in Hc.
    destruct (Z.eqb_spec c 43); [lia |]. destruct (Z.eqb_spec c 45); [lia |].
    destruct (ParseInt_unsigned_range false (c :: ds') Hne Hds) as (v & -> & Hv).
    destruct (digits_from 0 (c :: ds') <=? 2 ^ 63 - 1); [now rewrite Hv | reflexivity].
  - rewrite coerceValue_number by (now right). rewrite ParseInt_sign. cbn [Z.eqb Pos.eqb].
    destruct (ParseInt_unsigned_range true ds Hne Hds) as (v & -> & Hv).
    destruct (digits_from 0 ds <=? 2 ^ 63); [now rewrite Hv | reflexivity].
Qed.

End Values.

Lemma decimal_value_coercion_witness :
  coerceValue example_JSON example_Unmarshal example_caseLower (str "9223372036854775808")
  = ret (VString (str "9223372036854775808")) /\
  coerceValue example_JSON example_Unmarshal example_caseLower (str "-9223372036854775808")
  = ret (VInt (- 9223372036854775808)).
Proof.
  apply (decimal_value_coercion example_JSON example_Unmarshal example_caseLower
           (str "9223372036854775808")).
  - discriminate.
  - repeat constructor; unfold is_digit; cbn; lia.
Defined.

(** ** Quoting a value *)

Lemma tokens_from_head (isSeparator : rune -> bool) (s : gostring) :
  forall st cur, cur <> [] ->
    exists more rest, tokens_from isSeparator st cur s = (cur ++ more) :: rest.
Proof.
  induction s as [|c s IH]; intros st cur Hcur; cbn [tokens_from].
  - exists [], []. rewrite app_nil_r. now apply emit_nonempty.
  - destruct (tokenizer_step isSeparator st c) as [st' ends]. destruct ends.
    + exists [], (tokens_from isSeparator st' [] s).
      rewrite app_nil_r, (emit_nonempty cur Hcur). reflexivity.
    + destruct (IH st' (cur ++ [c])) as (more & rest & ->).
      * intros E. now apply app_eq_nil in E as [_ [=]].
      * exists (c :: more), rest. now rewrite <- app_assoc.
Qed.

Lemma plain_text_scan (s : gostring) :
  plain_text s -> scan_state (separator_test 61) Normal s = Some Normal.
Proof.
  intros Hs. apply scan_state_plain. eapply Forall_impl; [exact Hs |].
  intros c [Hq Hc]. split; [exact Hq |]. cbn. now apply Z.eqb_neq.
Qed.

Lemma plain_text_not_quote (c : rune) :
  Unicode.Is Unicode.Quotation_Mark c = false -> Strings.inCutset [34; 39] c = false.
Proof.
  intros Hq. destruct (Strings.inCutset [34; 39] c) eqn:E; [| reflexivity].
  apply inCutset_quotes in E. destruct E as [-> | ->]; discriminate Hq.
Qed.

Lemma plain_text_Trim (l r v : gostring) :
  Forall (fun x => Strings.inCutset [34; 39] x = true) l ->
  Forall (fun x => Strings.inCutset [34; 39] x = true) r ->
  v <> [] -> plain_text v ->
  Strings.Trim (l ++ v ++ r) [34; 39] = v.
Proof.
  intros Hl Hr Hne Hv.
  destruct v as [|c v'] eqn:Ev; [congruence |]. rewrite <- Ev in *.
  destruct (exists_last Hne) as (front & d & Hlast).
  assert (Hin : forall x, x ∈ v -> Strings.inCutset [34; 39] x = false).
  { intros x Hx. unfold plain_text in Hv. rewrite Forall_forall in Hv.
    apply plain_text_not_quote. exact (proj1 (Hv x Hx)). }
  apply (Trim_inner [34; 39] l v r c d front Hl Hr).
  - now rewrite Ev.
  - apply Hin. rewrite Ev. apply elem_of_cons. now left.
  - exact Hlast.
  - apply Hin. rewrite Hlast. apply elem_of_app. right. apply elem_of_cons. now left.
Qed.

Lemma plain_pair_parts (key v : gostring) :
  key <> [] -> v <> [] -> plain_text key -> plain_text v ->
  splitString (key ++ [61] ++ v) 61 = [key; v].
Proof.
  intros Hk Hv Hpk Hpv. rewrite splitString_tokenize by discriminate. unfold tokenize.
  rewrite (tokens_from_kept _ key Normal Normal [] _ (plain_text_scan key Hpk)).
  cbn [app tokens_from]. change (tokenizer_step (separator_test 61) Normal 61) with (Normal, true).
  cbn iota. rewrite (emit_nonempty key Hk).
  rewrite <- (app_nil_r v) at 1.
  rewrite (tokens_from_kept _ v Normal Normal [] [] (plain_text_scan v Hpv)).
  cbn [app tokens_from]. now rewrite (emit_nonempty v Hv).
Qed.

Lemma quoted_pair_parts (key v : gostring) (q : rune) :
  is_quote q -> key <> [] -> plain_text key -> plain_text v ->
  splitString (key ++ [61] ++ [q] ++ v ++ [q]) 61 = [key; [q] ++ v ++ [q]].
Proof.
  intros Hq Hk Hpk Hpv. rewrite splitString_tokenize by discriminate. unfold tokenize.
  rewrite (tokens_from_kept _ key Normal Normal [] _ (plain_text_scan key Hpk)).
  cbn [app tokens_from]. change (tokenizer_step (separator_test 61) Normal 61) with (Normal, true).
  cbn iota. rewrite (emit_nonempty key Hk).
  assert (Hstep : tokenizer_step (separator_test 61) Normal q = (InsideQuote q, false))
    by (destruct Hq as [-> | ->]; reflexivity).
  rewrite Hstep.
  assert (Hnot : q ∉ v).
  { intros Hin. unfold plain_text in Hpv. rewrite Forall_forall in Hpv.
    destruct (Hpv q Hin) as [Hno _]. destruct Hq as [-> | ->]; discriminate Hno. }
  rewrite (tokens_from_inside_quote _ q v Hnot). reflexivity.
Qed.

Section Quoting.

Variable JSON : Type.
Variable json_Unmarshal : gostring -> JSON + gostring.
Variable caseLower : rune -> rune.

Local Abbreviation coerceValue' := (coerceValue JSON json_Unmarshal caseLower).
Local Abbreviation buildQMPCommand_arg' := (buildQMPCommand_arg JSON json_Unmarshal caseLower).

(** X8: putting a value between two ASCII quotes does not change what
    it is coerced to: for a key and a value without quotation mark and
    without [=], the quoted and the bare token store the same value, the
    coercion of the bare text (so ["42"] is the integer 42). *)
Theorem quoted_value_same_coercion
    (m : gmap gostring (Value JSON)) (key v : gostring) (q : rune) :
  is_quote q -> key <> [] -> v <> [] -> plain_text key -> plain_text v ->
  buildQMPCommand_arg' m (key ++ [61] ++ [q] ++ v ++ [q])
  = buildQMPCommand_arg' m (key ++ [61] ++ v) /\
  buildQMPCommand_arg' m (key ++ [61] ++ v)
  = (x <- coerceValue' v ;; ret (<[key := x]> m)).
Proof.
  intros Hq Hk Hv Hpk Hpv.
  assert (Hcut : Forall (fun x => Strings.inCutset [34; 39] x = true) [q])
    by (constructor; [now apply inCutset_quotes | constructor]).
  rewrite (buildQMPCommand_arg_pair JSON json_Unmarshal caseLower m _ _ _
             (quoted_pair_parts key v q Hq Hk Hpk Hpv)).
  rewrite (buildQMPCommand_arg_pair JSON json_Unmarshal caseLower m _ _ _
             (plain_pair_parts key v Hk Hv Hpk Hpv)).
  rewrite (plain_text_Trim [q] [q] v Hcut Hcut Hv Hpv).
  pose proof (plain_text_Trim [] [] v ltac:(constructor) ltac:(constructor) Hv Hpv) as Hbare.
  cbn [app] in Hbare. rewrite app_nil_r in Hbare. rewrite Hbare.
  split; reflexivity.
Qed.

End Quoting.

Lemma quoted_value_same_coercion_witness :
  buildQMPCommand_arg example_JSON example_Unmarshal example_caseLower ∅
    (str "a" ++ [61] ++ DQ ++ str "42" ++ DQ)
  = ret {[ str "a" := VInt 42 ]}.
Proof.
  unfold DQ.
  rewrite (proj1 (quoted_value_same_coercion example_JSON example_Unmarshal example_caseLower
                    ∅ (str "a") (str "42") 34
                    (or_introl eq_refl) ltac:(discriminate) ltac:(discriminate)
                    ltac:(repeat constructor; discriminate)
                    ltac:(repeat constructor; discriminate))).
  reflexivity.
Defined.

(** ** The HMP shell *)

Section HMPShape.

Variable JSON : Type.
Variable json_Unmarshal : gostring -> JSON + gostring.
Variable caseLower : rune -> rune.
Variable Reply : Type.
Variable monitor_Run : QMPCommand JSON -> Reply + error.
Variable Sprintf_s : Reply -> gostring.
Variable json_MarshalIndent : Reply -> gostring + error.

Local Abbreviation buildQMPCommand_arg' := (buildQMPCommand_arg JSON json_Unmarshal caseLower).
Local Abbreviation executeCommand_build' := (executeCommand_build JSON json_Unmarshal caseLower).
Local Abbreviation executeCommand' :=
  (executeCommand JSON json_Unmarshal caseLower Reply monitor_Run Sprintf_s json_MarshalIndent).

Lemma forRange_keeps_keys (args : list gostring) (key : gostring) :
  forall (m m' : gmap gostring (Value JSON)),
    is_Some (m !! key) ->
    outcome (forRange buildQMPCommand_arg' args m) = Ok m' ->
    is_Some (m' !! key).
Proof.
  induction args as [|arg args IH]; intros m m' Hkey Hrun.
  - cbn in Hrun. now injection Hrun as <-.
  - cbn [forRange] in Hrun.
    destruct (buildQMPCommand_arg' m arg) as [out [m1 | e |]] eqn:Harg; try discriminate Hrun.
    rewrite bind_ok in Hrun. cbn [outcome snd] in Hrun.
    assert (Hout : outcome (buildQMPCommand_arg' m arg) = Ok m1) by (now rewrite Harg).
    destruct (buildQMPCommand_arg_key JSON json_Unmarshal caseLower m m1 arg Hout)
      as (k & v & _ & _ & ->).
    apply (IH (<[k := v]> m) m'); [| exact Hrun].
    apply lookup_insert_is_Some. destruct (decide (k = key)); [now left | now right].
Qed.

(** The tokens of a wrapped line: the fixed name, then a token that
    begins with [command-line='] and whose key is [command-line]. *)
Lemma wrapped_line_shape (line : gostring) :
  exists more args,
    splitString (str "human-monitor-command command-line='" ++ line ++ str "'") 32
    = str "human-monitor-command" :: (str "command-line='" ++ more) :: args /\
    head (splitString (str "command-line='" ++ more) 61) = Some (str "command-line").
Proof.
  destruct (tokens_from_head Unicode.IsSpace (line ++ [39]) (InsideQuote 39)
              (str "command-line='") ltac:(discriminate)) as (more & args & Htok).
  exists more, args. split.
  - rewrite splitString_tokenize by discriminate. rewrite <- Htok. reflexivity.
  - rewrite splitString_tokenize by discriminate. reflexivity.
Qed.

Lemma wrapped_line_name (line : gostring) (cmd : QMPCommand JSON) :
  outcome (executeCommand_build' true line) = Ok cmd ->
  Name cmd = str "human-monitor-command".
Proof.
  unfold executeCommand_build, buildQMPCommand.
  destruct (wrapped_line_shape line) as (more & args & -> & _).
  change (tail (str "human-monitor-command" :: (str "command-line='" ++ more) :: args))
    with ((str "command-line='" ++ more) :: args).
  destruct (forRange buildQMPCommand_arg' ((str "command-line='" ++ more) :: args) ∅)
    as [out [m | e |]]; try discriminate.
  cbn. now intros [= <-].
Qed.

(** X9: in HMP mode every command that is built is named
    [human-monitor-command] and has the argument [command-line],
    whatever the line is. *)
Theorem HMP_command_shape (line : gostring) (cmd : QMPCommand JSON) :
  outcome (executeCommand_build' true line) = Ok cmd ->
  Name cmd = str "human-monitor-command" /\
  is_Some (Arguments cmd !! str "command-line").
Proof.
  unfold executeCommand_build, buildQMPCommand.
  destruct (wrapped_line_shape line) as (more & args & -> & Hkey).
  cbn [forRange]. rewrite bind_assoc.
  destruct (buildQMPCommand_arg' ∅ (str "command-line='" ++ more)) as [out [m1 | e |]] eqn:Harg;
    try discriminate.
  assert (Hout : outcome (buildQMPCommand_arg' ∅ (str "command-line='" ++ more)) = Ok m1)
    by (now rewrite Harg).
  rewrite bind_ok. cbn [outcome snd].
  destruct (forRange buildQMPCommand_arg' args m1) as [out' [m | e |]] eqn:Hrest;
    try discriminate.
  cbn. intros [= <-]. cbn [Name Arguments]. split; [reflexivity |].
  apply (forRange_keeps_keys args _ m1 m); [| now rewrite Hrest].
  unfold buildQMPCommand_arg in Hout.
  destruct (splitString (str "command-line='" ++ more) 61) as [|key [|value [|x parts]]];
    try discriminate Hout.
  cbn in Hkey. injection Hkey as ->.
  destruct (len value =? 0); [discriminate Hout |].
  destruct (coerceValue JSON json_Unmarshal caseLower (Strings.Trim value [34; 39]))
    as [o [v | e |]]; try discriminate Hout.
  rewrite bind_ok in Hout. cbn in Hout. injection Hout as <-.
  rewrite lookup_insert_eq. eauto.
Qed.

(** X10: in HMP mode [executeCommand] hands the monitor at most one
    command, always [human-monitor-command]; when the line cannot be
    built nothing is sent, and a reply of the monitor is always returned
    as the raw text [fmt.Sprintf("%s", res)], never as indented JSON. *)
Theorem HMP_reply_is_raw_text (line : gostring) :
  (sent (executeCommand' true line) = [] /\
   forall s, returned (executeCommand' true line) <> Ok s) \/
  (exists cmd,
     sent (executeCommand' true line) = [cmd] /\
     Name cmd = str "human-monitor-command" /\
     returned (executeCommand' true line)
     = match monitor_Run cmd with
       | inl res => Ok (Sprintf_s res)
       | inr err => Err err
       end).
Proof.
  unfold executeCommand.
  pose proof (wrapped_line_name line) as Hshape.
  destruct (executeCommand_build' true line) as [out [cmd | e |]].
  - right. exists cmd. pose proof (Hshape cmd eq_refl) as Hname.
    destruct (monitor_Run cmd) as [res | err]; cbn.
    + rewrite Hname. cbn. repeat split; reflexivity.
    + repeat split; [exact Hname].
  - left. cbn. split; [reflexivity | discriminate].
  - left. cbn. split; [reflexivity | discriminate].
Qed.

End HMPShape.

Lemma HMP_command_shape_witness :
  Name (mkQMPCommand (JSON := example_JSON) (str "human-monitor-command")
          {[ str "command-line" := VBool true ]}) = str "human-monitor-command" /\
  is_Some (Arguments (mkQMPCommand (JSON := example_JSON) (str "human-monitor-command")
                        {[ str "command-line" := VBool true ]}) !! str "command-line").
Proof.
  apply (HMP_command_shape example_JSON example_Unmarshal example_caseLower (str "true")).
  vm_compute. reflexivity.
Defined.

(** ** The completer, again *)

Lemma HasPrefix_nil (s : gostring) : Strings.HasPrefix s [] = true.
Proof. destruct s; reflexivity. Qed.

Lemma completer_narrow (caseLower : rune -> rune) (cmdlist : list gostring)
    (line more : gostring) :
  completer caseLower (completer caseLower cmdlist line) (line ++ more)
  = completer caseLower cmdlist (line ++ more).
Proof.
  induction cmdlist as [|n cmdlist IH]; cbn [completer]; [reflexivity |].
  destruct (Strings.HasPrefix n (Strings.ToLower caseLower line)) eqn:Hshort.
  - cbn [completer]. now rewrite IH.
  - rewrite IH.
    destruct (Strings.HasPrefix n (Strings.ToLower caseLower (line ++ more))) eqn:Hlong;
      [| reflexivity].
    apply HasPrefix_spec in Hlong. destruct Hlong as (rest & Hn).
    unfold Strings.ToLower in Hn. rewrite map_app, <- app_assoc in Hn.
    assert (Hyes : Strings.HasPrefix n (Strings.ToLower caseLower line) = true)
      by (apply HasPrefix_spec; eexists; exact Hn).
    congruence.
Qed.

(** X11: with an empty input the completer offers the whole list; what
    it returns is always a part of the list in the order of the list
    (so it is sorted when the list is); and typing more characters only
    narrows the result: completing the longer input from the result of
    the shorter one gives the same as completing it from the list. *)
Theorem completer_narrows (caseLower : rune -> rune) (cmdlist : list gostring)
    (line more : gostring) :
  completer caseLower cmdlist [] = cmdlist /\
  completer caseLower cmdlist line `sublist_of` cmdlist /\
  (StronglySorted string_le cmdlist ->
   StronglySorted string_le (completer caseLower cmdlist line)) /\
  completer caseLower (completer caseLower cmdlist line) (line ++ more)
  = completer caseLower cmdlist (line ++ more).
Proof.
  assert (Hsub : completer caseLower cmdlist line `sublist_of` cmdlist).
  { induction cmdlist as [|n cmdlist IH]; cbn [completer]; [constructor |].
    destruct (Strings.HasPrefix n (Strings.ToLower caseLower line));
      [now apply sublist_skip | now apply sublist_cons]. }
  split; [| split; [exact Hsub | split; [| apply completer_narrow]]].
  - induction cmdlist as [|n cmdlist IH]; cbn [completer]; [reflexivity |].
    cbn [Strings.ToLower map]. rewrite HasPrefix_nil. f_equal. apply IH.
    clear. induction cmdlist as [|x l IHl]; cbn [completer]; [constructor |].
    destruct (Strings.HasPrefix x (Strings.ToLower caseLower line));
      [now apply sublist_skip | now apply sublist_cons].
  - clear Hsub. induction cmdlist as [|n cmdlist IH]; intros Hsorted; cbn [completer];
      [constructor |].
    apply StronglySorted_inv in Hsorted. destruct Hsorted as [Hrest Hn].
    destruct (Strings.HasPrefix n (Strings.ToLower caseLower line)); [| now apply IH].
    constructor; [now apply IH |].
    rewrite Forall_forall in *. intros x Hx. apply Hn.
    apply completer_elem_of in Hx. exact (proj1 Hx).
Qed.

Lemma completer_narrows_witness :
  StronglySorted string_le
    (completer example_caseLower
       [str "query-balloon"; str "query-status"; str "quit"] (str "QUERY")).
Proof.
  apply (completer_narrows example_caseLower
           [str "query-balloon"; str "query-status"; str "quit"] (str "QUERY") []).
  repeat constructor.
Defined.

(** ** The replies of the monitor, line by line *)

Lemma Fields_blank (line : gostring) :
  Forall (fun c => Unicode.IsSpace c = true) line -> Strings.Fields line = [].
Proof.
  intros Hblank. unfold Strings.Fields. rewrite FieldsFunc_fields.
  induction Hblank as [|c line Hc Hline IH]; cbn [fields_from]; [reflexivity |].
  rewrite Hc. exact IH.
Qed.

Lemma NewHMPShell_help_no_error (cmdlist : list gostring) (line : gostring) (e : error) :
  outcome (NewHMPShell_help cmdlist line) <> Err e.
Proof.
  unfold NewHMPShell_help.
  destruct line as [|c rest]; [discriminate |].
  destruct (negb (negb (c =? 91) && negb (c =? 9))); [discriminate |].
  destruct (Strings.Fields (c :: rest)) as [|name fields]; [discriminate |].
  destruct (streq name (str "info")); [discriminate |].
  destruct (Strings.Contains (c :: rest) (str "|")); [| discriminate].
  destruct (Strings.Split name (str "|")) as [|nn0 nn']; [discriminate |].
  destruct (len nn0 =? 1); [| discriminate].
  destruct nn'; discriminate.
Qed.

Lemma forRange_help_panics (lines : list gostring) (line : gostring) :
  line ∈ lines ->
  (forall cmdlist, outcome (NewHMPShell_help cmdlist line) = Panic) ->
  forall cmdlist, outcome (forRange NewHMPShell_help lines cmdlist) = Panic.
Proof.
  intros Hin Hpanic. induction lines as [|x lines IH]; intros cmdlist; [inversion Hin |].
  cbn [forRange].
  destruct (NewHMPShell_help cmdlist x) as [out [c1 | e |]] eqn:Hx.
  - rewrite bind_ok. cbn [outcome snd].
    apply elem_of_cons in Hin. destruct Hin as [-> | Hin].
    + specialize (Hpanic cmdlist). rewrite Hx in Hpanic. discriminate Hpanic.
    + now apply IH.
  - exfalso. apply (NewHMPShell_help_no_error cmdlist x e). now rewrite Hx.
  - reflexivity.
Qed.

(** X12: a line of the reply to [help] that is only blanks (and does
    not begin with a tab) stops [NewHMPShell] with a panic,
    [strings.Fields(line)[0]] being out of range, whatever the other
    lines and the reply to [info] are. *)
Theorem blank_help_line_panics (help info line : gostring) :
  line ∈ Strings.Split help [13; 10] ->
  line <> [] -> Forall (fun c => Unicode.IsSpace c = true) line -> head line <> Some 9 ->
  outcome (NewHMPShell_cmdlist help info) = Panic.
Proof.
  intros Hin Hne Hblank Htab. unfold NewHMPShell_cmdlist.
  assert (Hloop : outcome (forRange NewHMPShell_help (Strings.Split help [13; 10]) []) = Panic).
  { apply (forRange_help_panics _ line Hin). intros cmdlist. unfold NewHMPShell_help.
    destruct line as [|c rest]; [congruence |].
    assert (Hc : Unicode.IsSpace c = true) by (now inversion Hblank).
    destruct (Z.eqb_spec c 91) as [-> | _]; [discriminate Hc |].
    destruct (Z.eqb_spec c 9) as [-> | _]; [now contradiction Htab |].
    cbn [negb andb]. now rewrite (Fields_blank (c :: rest) Hblank). }
  destruct (forRange NewHMPShell_help (Strings.Split help [13; 10]) []) as [out [c | e |]];
    try discriminate Hloop.
  reflexivity.
Qed.

Lemma blank_help_line_panics_witness :
  outcome (NewHMPShell_cmdlist (str "quit" ++ [13; 10] ++ str "  " ++ [13; 10] ++ str "stop")
             (str "info version")) = Panic.
Proof.
  apply (blank_help_line_panics _ _ (str "  ")).
  - compute_done.
  - discriminate.
  - repeat constructor.
  - discriminate.
Defined.

Lemma help_entries_shape (line : gostring) (es : list gostring) :
  outcome (help_entries line) = Ok es ->
  es = [] \/ exists name, es = command_entries name.
Proof.
  unfold help_entries, NewHMPShell_help.
  destruct line as [|c rest]; [intros [= <-]; now left |].
  destruct (negb (negb (c =? 91) && negb (c =? 9))); [intros [= <-]; now left |].
  destruct (Strings.Fields (c :: rest)) as [|name fields]; [discriminate |].
  destruct (streq name (str "info")); [intros [= <-]; now left |].
  destruct (Strings.Contains (c :: rest) (str "|")).
  - destruct (Strings.Split name (str "|")) as [|nn0 nn']; [discriminate |].
    destruct (len nn0 =? 1).
    + destruct nn' as [|nn1 nn'']; [discriminate |].
      intros [= <-]. right. now exists nn1.
    + intros [= <-]. right. now exists nn0.
  - intros [= <-]. right. now exists name.
Qed.

Lemma info_entries_shape (line : gostring) (es : list gostring) :
  outcome (info_entries line) = Ok es ->
  es = [] \/ exists topic, topic <> [] /\ topic ∈ Strings.Fields line /\ es = [topic_entry topic].
Proof.
  unfold info_entries, NewHMPShell_info.
  destruct (negb ((0 <? len line) && (2 <=? Z.of_nat (length (Strings.Fields line)))));
    [intros [= <-]; now left |].
  pose proof (fields_from_nonempty (fun (_ : unit) r => (tt, Unicode.IsSpace r)) line tt [])
    as Hall.
  rewrite <- FieldsFunc_fields in Hall. fold (Strings.Fields line) in Hall.
  destruct (Strings.Fields line) as [|f0 [|topic fields]]; try discriminate.
  intros [= <-]. right. exists topic. split; [| split; [| reflexivity]].
  - inversion Hall as [|? ? _ Hall']; subst. now inversion Hall'.
  - apply elem_of_cons. right. apply elem_of_cons. now left.
Qed.

Lemma help_loop_shape (lines : list gostring) :
  forall es, outcome (forRange NewHMPShell_help lines []) = Ok es ->
    exists names, es = flat_map command_entries names.
Proof.
  induction lines as [|x lines IH]; intros es Hrun.
  - cbn in Hrun. injection Hrun as <-. now exists [].
  - cbn [forRange] in Hrun.
    destruct (NewHMPShell_help [] x) as [o [e1 | err |]] eqn:Hx; try discriminate Hrun.
    rewrite bind_ok in Hrun. cbn [outcome snd] in Hrun.
    rewrite (forRange_collect _ NewHMPShell_help_appends lines e1) in Hrun.
    destruct (forRange NewHMPShell_help lines []) as [o' [es2 | err |]]; try discriminate Hrun.
    cbn in Hrun. injection Hrun as <-.
    destruct (IH es2 eq_refl) as (names & ->).
    assert (H1 : outcome (help_entries x) = Ok e1) by (unfold help_entries; now rewrite Hx).
    destruct (help_entries_shape x e1 H1) as [-> | (name & ->)].
    + now exists names.
    + now exists (name :: names).
Qed.

Lemma info_loop_shape (lines : list gostring) :
  forall es, outcome (forRange NewHMPShell_info lines []) = Ok es ->
    exists topics, Forall (fun t => t <> []) topics /\ es = map topic_entry topics.
Proof.
  induction lines as [|x lines IH]; intros es Hrun.
  - cbn in Hrun. injection Hrun as <-. exists []. split; [constructor | reflexivity].
  - cbn [forRange] in Hrun.
    destruct (NewHMPShell_info [] x) as [o [e1 | err |]] eqn:Hx; try discriminate Hrun.
    rewrite bind_ok in Hrun. cbn [outcome snd] in Hrun.
    rewrite (forRange_collect _ NewHMPShell_info_appends lines e1) in Hrun.
    destruct (forRange NewHMPShell_info lines []) as [o' [es2 | err |]]; try discriminate Hrun.
    cbn in Hrun. injection Hrun as <-.
    destruct (IH es2 eq_refl) as (topics & Hne & ->).
    assert (H1 : outcome (info_entries x) = Ok e1) by (unfold info_entries; now rewrite Hx).
    destruct (info_entries_shape x e1 H1) as [-> | (topic & Ht & _ & ->)].
    + now exists topics.
    + exists (topic :: topics). split; [now constructor | reflexivity].
Qed.

(** X13: the completion list of [NewHMPShell] is made of pairs and of
    topics only: up to order it is, for some command names, each name
    with its twin [help name], and, for some non-empty status topics,
    [info topic]; so it has twice as many entries as names, plus one for
    each topic. *)
Theorem completion_list_shape (help info : gostring) (idx : list gostring) :
  outcome (NewHMPShell_cmdlist help info) = Ok idx ->
  exists names topics,
    idx ≡ₚ flat_map command_entries names ++ map topic_entry topics /\
    Forall (fun t => t <> []) topics /\
    length idx = (2 * length names + length topics)%nat.
Proof.
  intros Hrun.
  destruct (NewHMPShell_cmdlist_sorted help info idx Hrun) as (cmds & infos & Hc & Hi & ->).
  destruct (help_loop_shape _ cmds Hc) as (names & ->).
  destruct (info_loop_shape _ infos Hi) as (topics & Hne & ->).
  exists names, topics.
  assert (Hperm : sort_Strings (flat_map command_entries names ++ map topic_entry topics)
                  ≡ₚ flat_map command_entries names ++ map topic_entry topics)
    by (unfold sort_Strings; apply merge_sort_Permutation).
  split; [exact Hperm |]. split; [exact Hne |].
  rewrite Hperm, length_app, length_map. f_equal.
  clear. induction names as [|n names IH]; [reflexivity |].
  cbn [flat_map command_entries app length]. rewrite IH. lia.
Qed.

Lemma completion_list_shape_witness :
  exists names topics,
    [str "help stop"; str "info version"; str "stop"]
    ≡ₚ flat_map command_entries names ++ map topic_entry topics /\
    Forall (fun t => t <> []) topics /\
    length [str "help stop"; str "info version"; str "stop"]
    = (2 * length names + length topics)%nat.
Proof.
  apply (completion_list_shape (str "stop -- stop emulation") (str "info version  -- show")).
  vm_compute. reflexivity.
Defined.

(** ** A value made of quotes only *)

Lemma scan_state_quotes (isSeparator : rune -> bool) (qs : gostring) :
  Forall is_quote qs ->
  forall st, exists st', scan_state isSeparator st qs = Some st'.
Proof.
  induction 1 as [|q qs Hq Hqs IH]; intros st; cbn [scan_state]; [now exists st |].
  assert (Hmark : Unicode.Is Unicode.Quotation_Mark q = true)
    by (destruct Hq as [-> | ->]; reflexivity).
  unfold tokenizer_step. destruct st as [|q0].
  - rewrite Hmark. apply IH.
  - destruct (q =? q0); apply IH.
Qed.

Lemma Trim_quotes_only (qs : gostring) :
  Forall is_quote qs -> Strings.Trim qs [34; 39] = [].
Proof.
  intros Hqs.
  assert (Hcut : Forall (fun x => Strings.inCutset [34; 39] x = true) (rev qs)).
  { apply List.Forall_rev. eapply Forall_impl; [exact Hqs |]. intros c. apply inCutset_quotes. }
  unfold Strings.Trim, Strings.TrimRight.
  rewrite <- (app_nil_r (rev qs)). rewrite (TrimLeft_cut _ _ [] Hcut). reflexivity.
Qed.

Section Panics.

Variable JSON : Type.
Variable json_Unmarshal : gostring -> JSON + gostring.
Variable caseLower : rune -> rune.

Local Abbreviation buildQMPCommand_arg' := (buildQMPCommand_arg JSON json_Unmarshal caseLower).

(** X14: a key=value token whose value is made of ASCII quotes only
    (as in [a=''], or a single quote) passes the test of emptiness,
    is trimmed to the empty text, and the test of its first byte then
    panics: the token is not refused with an error. *)
Theorem quotes_only_value_panics
    (m : gmap gostring (Value JSON)) (key qs : gostring) :
  key <> [] -> plain_text key -> qs <> [] -> Forall is_quote qs ->
  splitString (key ++ [61] ++ qs) 61 = [key; qs] /\
  buildQMPCommand_arg' m (key ++ [61] ++ qs) = ([], Panic).
Proof.
  intros Hk Hpk Hne Hqs.
  assert (Hparts : splitString (key ++ [61] ++ qs) 61 = [key; qs]).
  { rewrite splitString_tokenize by discriminate. unfold tokenize.
    rewrite (tokens_from_kept _ key Normal Normal [] _ (plain_text_scan key Hpk)).
    cbn [app tokens_from].
    change (tokenizer_step (separator_test 61) Normal 61) with (Normal, true).
    cbn iota. rewrite (emit_nonempty key Hk).
    destruct (scan_state_quotes (separator_test 61) qs Hqs Normal) as (st' & Hscan).
    rewrite <- (app_nil_r qs) at 1.
    rewrite (tokens_from_kept _ qs Normal st' [] [] Hscan).
    cbn [app tokens_from]. now rewrite (emit_nonempty qs Hne). }
  split; [exact Hparts |].
  rewrite (buildQMPCommand_arg_pair JSON json_Unmarshal caseLower m _ _ _ Hparts).
  rewrite (Trim_quotes_only qs Hqs). reflexivity.
Qed.

End Panics.

Lemma quotes_only_value_panics_witness :
  buildQMPCommand_arg example_JSON example_Unmarshal example_caseLower ∅ (str "a=''")
  = ([], Panic).
Proof.
  apply (quotes_only_value_panics example_JSON example_Unmarshal example_caseLower
           ∅ (str "a") (str "''")).
  - discriminate.
  - repeat constructor; discriminate.
  - discriminate.
  - repeat constructor; now right.
Defined.

(** ** A line of double quotes at the HMP prompt *)

Section HMPQuotes.

Variable JSON : Type.
Variable json_Unmarshal : gostring -> JSON + gostring.
Variable caseLower : rune -> rune.

Local Abbreviation executeCommand_build' := (executeCommand_build JSON json_Unmarshal caseLower).

(** X15: in HMP mode a line made of ASCII double quotes only, the empty
    line included, is wrapped into a value of quotes only: building the
    command panics, with nothing written and no error returned. *)
Theorem HMP_line_of_quotes_panics (line : gostring) :
  Forall (fun c => c = 34) line ->
  executeCommand_build JSON json_Unmarshal caseLower true line = ([], Panic).
Proof.
  intros Hall.
  assert (Hq : 39 ∉ line).
  { intros Hin. rewrite Forall_forall in Hall. now specialize (Hall 39 Hin). }
  unfold executeCommand_build, buildQMPCommand.
  rewrite (wrapped_line_tokens line Hq). cbn [forRange].
  rewrite (buildQMPCommand_arg_pair JSON json_Unmarshal caseLower ∅ _ _ _
             (wrapped_line_parts line Hq)).
  rewrite Trim_quotes_only; [reflexivity |].
  constructor; [now right |].
  apply Forall_app. split; [| repeat constructor; now right].
  eapply Forall_impl; [exact Hall |]. intros c ->. now left.
Qed.

End HMPQuotes.

Lemma HMP_line_of_quotes_panics_witness :
  executeCommand_build example_JSON example_Unmarshal example_caseLower true [34; 34]
  = ([], Panic).
Proof.
  apply (HMP_line_of_quotes_panics example_JSON example_Unmarshal example_caseLower [34; 34]).
  repeat constructor.
Defined.

(** ** The loop of [Serve] *)

Section ServeFacts.

Variable JSON : Type.
Variable json_Unmarshal : gostring -> JSON + gostring.
Variable caseLower : rune -> rune.
Variable Reply : Type.
Variable Sprintf_s : Reply -> gostring.
Variable json_MarshalIndent : Reply -> gostring + error.
Variable Event : Type.
Variable Event_Seconds : Event -> Z.
Variable Printf_event : Event -> gostring.

Local Abbreviation executeCommand_build' := (executeCommand_build JSON json_Unmarshal caseLower).
Local Abbreviation executeCommand' :=
  (executeCommand JSON json_Unmarshal caseLower Reply).
Local Abbreviation Serve_events' := (Serve_events JSON Event Event_Seconds Printf_event).
Local Abbreviation Serve_loop' :=
  (Serve_loop JSON json_Unmarshal caseLower Reply Sprintf_s json_MarshalIndent
     Event Event_Seconds Printf_event).
Local Abbreviation Serve' :=
  (Serve JSON json_Unmarshal caseLower Reply Sprintf_s json_MarshalIndent
     Event Event_Seconds Printf_event).
Local Abbreviation lines_without_panic' :=
  (lines_without_panic JSON json_Unmarshal caseLower Reply Event).
Local Abbreviation Script := (list (Prompted * Monitor JSON Reply Event)).

(** The lines of a script that [Serve] gives to [AppendHistory]. *)
Local Abbreviation kept_lines script :=
  (List.filter (fun l => negb (len l =? 0)) (prompted_lines script)).

Lemma executeCommand_panics (run : QMPCommand JSON -> Reply + error) (isHMP : bool)
    (line : gostring) :
  returned (executeCommand' run Sprintf_s json_MarshalIndent isHMP line) = Panic <->
  outcome (executeCommand_build' isHMP line) = Panic.
Proof.
  unfold executeCommand.
  destruct (executeCommand_build' isHMP line) as [out [cmd | e |]]; cbn [outcome snd].
  - destruct (run cmd) as [res | err]; [| split; discriminate].
    destruct (streq (Name cmd) (str "human-monitor-command")); [split; discriminate |].
    destruct (json_MarshalIndent res); split; discriminate.
  - split; discriminate.
  - split; reflexivity.
Qed.

Lemma executeCommand_sends_one (run : QMPCommand JSON -> Reply + error) (isHMP : bool)
    (line : gostring) :
  (length (sent (executeCommand' run Sprintf_s json_MarshalIndent isHMP line)) <= 1)%nat.
Proof.
  unfold executeCommand.
  destruct (executeCommand_build' isHMP line) as [out [cmd | e |]];
    [| cbn [sent length]; lia ..].
  destruct (run cmd) as [res | err]; [| cbn [sent length]; lia].
  destruct (streq (Name cmd) (str "human-monitor-command")); [cbn [sent length]; lia |].
  destruct (json_MarshalIndent res); cbn [sent length]; lia.
Qed.

Lemma Serve_events_keeps (events : list Event) :
  forall st : Served JSON,
    logged (Serve_events' events st) = logged st /\
    history (Serve_events' events st) = history st /\
    commands (Serve_events' events st) = commands st.
Proof.
  unfold Serve_events.
  induction events as [|e events IH]; intros st; cbn [fold_left]; [easy |].
  destruct (IH (mkServed JSON (printed st ++ [Printf_event e]) (logged st) (history st)
                  (commands st) ((Event_Seconds e + 1) mod 2 ^ 64))) as (H1 & H2 & H3).
  rewrite H1, H2, H3. easy.
Qed.

(** After a run of lines none of which panics, the loop goes on with the
    rest of the script; every non-empty line is in the history, in
    order, nothing is logged, and at most one command per such line has
    been handed to the monitor. *)
Lemma Serve_loop_lines (isHMP : bool) (pre : Script) :
  lines_without_panic' isHMP pre ->
  forall (rest : Script) (st : Served JSON),
  exists st' : Served JSON,
    Serve_loop' isHMP (pre ++ rest) st = Serve_loop' isHMP rest st' /\
    history st' = history st ++ kept_lines pre /\
    logged st' = logged st /\
    (length (commands st') <= length (commands st) + length (kept_lines pre))%nat.
Proof.
  induction 1 as [|[p mon] pre (l & Hp & Hok) Hpre IH]; intros rest st.
  - exists st. cbn. rewrite app_nil_r. repeat split; lia.
  - cbn [fst] in Hp. subst p.
    change (prompted_lines ((PromptLine l, mon) :: pre)) with (l :: prompted_lines pre).
    cbn [app Serve_loop List.filter].
    destruct (len l =? 0) eqn:Hlen; cbn [negb].
    + destruct (FindEvents mon (ts st)) as [events found].
      destruct found.
      * destruct (IH rest (Serve_events' events st)) as (st' & Hrun & Hh & Hl & Hc).
        destruct (Serve_events_keeps events st) as (K1 & K2 & K3).
        exists st'. rewrite Hrun, Hh, Hl, K1, K2. rewrite K3 in Hc. repeat split. exact Hc.
      * destruct (IH rest st) as (st' & Hrun & Hh & Hl & Hc).
        exists st'. repeat split; assumption.
    + pose proof (executeCommand_sends_one (Run mon) isHMP l) as Hone.
      pose proof (executeCommand_panics (Run mon) isHMP l) as Hpanic.
      destruct (returned (executeCommand' (Run mon) Sprintf_s json_MarshalIndent isHMP l))
        as [res | err |] eqn:Hret.
      * match goal with |- context [Serve_loop' isHMP (pre ++ rest) ?s] =>
          destruct (IH rest s) as (st' & Hrun & Hh & Hl & Hc) end.
        cbn [history logged commands] in Hh, Hl, Hc.
        exists st'. rewrite Hrun, Hh, Hl. rewrite <- app_assoc. repeat split.
        rewrite length_app in Hc. cbn [length]. lia.
      * match goal with |- context [Serve_loop' isHMP (pre ++ rest) ?s] =>
          destruct (IH rest s) as (st' & Hrun & Hh & Hl & Hc) end.
        cbn [history logged commands] in Hh, Hl, Hc.
        exists st'. rewrite Hrun, Hh, Hl. rewrite <- app_assoc. repeat split.
        rewrite length_app in Hc. cbn [length]. lia.
      * exfalso. apply Hok. now apply Hpanic.
Qed.


(** What follows a prompt that is not a line is never read. *)
Lemma Serve_loop_stops (isHMP : bool) (stop : Prompted) (mon : Monitor JSON Reply Event)
    (rest : Script) :
  (forall l, stop <> PromptLine l) ->
  forall (pre : Script) (st : Served JSON),
    Serve_loop' isHMP (pre ++ (stop, mon) :: rest) st
    = Serve_loop' isHMP (pre ++ [(stop, mon)]) st.
Proof.
  intros Hstop. induction pre as [|[p m] pre IH]; intros st.
  - destruct stop as [l | |]; [now destruct (Hstop l) | reflexivity | reflexivity].
  - destruct p as [l | |]; [| reflexivity | reflexivity].
    cbn [app Serve_loop].
    destruct (len l =? 0).
    + destruct (FindEvents m (ts st)) as [events found]. apply IH.
    + destruct (returned (executeCommand' (Run m) Sprintf_s json_MarshalIndent isHMP l));
        [apply IH | apply IH | reflexivity].
Qed.



End ServeFacts.




(** ** The completer of [NewQMPShell] *)

Lemma string_leb_antisym (a b : gostring) :
  string_leb a b = true -> string_leb b a = true -> a = b.
Proof.
  revert b. induction a as [|x a IH]; intros [|y b]; cbn; try discriminate; [reflexivity |].
  intros H1 H2.
  apply orb_true_iff in H1. apply orb_true_iff in H2.
  destruct H1 as [H1 | H1]; destruct H2 as [H2 | H2];
    rewrite ?andb_true_iff, ?Z.ltb_lt, ?Z.eqb_eq in *; try lia.
  destruct H1 as [-> H1]. destruct H2 as [_ H2]. f_equal. now apply IH.
Qed.

Lemma fold_left_append (names acc : list gostring) :
  fold_left (fun cmdlist name => cmdlist ++ [name]) names acc = acc ++ names.
Proof.
  revert acc. induction names as [|n names IH]; intros acc; cbn [fold_left].
  - now rewrite app_nil_r.
  - rewrite IH. now rewrite <- app_assoc.
Qed.

Lemma completer_filter (caseLower : rune -> rune) (cmdlist : list gostring) (line : gostring) :
  completer caseLower cmdlist line
  = filter (fun n => Strings.HasPrefix n (Strings.ToLower caseLower line) = true) cmdlist.
Proof.
  induction cmdlist as [|n cmdlist IH]; cbn [completer]; [reflexivity |].
  rewrite filter_cons.
  destruct (Strings.HasPrefix n (Strings.ToLower caseLower line)) eqn:Hn.
  - rewrite decide_True by reflexivity. now rewrite IH.
  - rewrite decide_False by discriminate. exact IH.
Qed.

Lemma filter_StronglySorted (P : gostring -> Prop) `{forall x, Decision (P x)}
    (l : list gostring) :
  StronglySorted string_le l -> StronglySorted string_le (filter P l).
Proof.
  induction 1 as [|x l Hl IH Hx]; [constructor |].
  rewrite filter_cons. destruct (decide (P x)); [| exact IH].
  constructor; [exact IH |].
  rewrite Forall_forall in *. intros y Hy. apply Hx.
  apply list_elem_of_filter in Hy. exact (proj2 Hy).
Qed.

(** X19: in the QMP shell the completer offers, in sorted order and with
    their multiplicity, exactly the command names of the reply to
    [query-commands] that begin with the lower-cased input: completing
    over the sorted list is sorting the names that match. *)
Theorem NewQMPShell_completions (caseLower : rune -> rune) (qmpCommands : list gostring)
    (line : gostring) :
  completer caseLower (NewQMPShell_cmdlist qmpCommands) line
  = sort_Strings
      (filter (fun n => Strings.HasPrefix n (Strings.ToLower caseLower line) = true)
         qmpCommands) /\
  forall n,
    n ∈ completer caseLower (NewQMPShell_cmdlist qmpCommands) line <->
    n ∈ qmpCommands /\ exists rest, n = Strings.ToLower caseLower line ++ rest.
Proof.
  pose proof string_le_total as Htotal. pose proof string_le_trans as Htrans.
  unfold NewQMPShell_cmdlist. rewrite fold_left_append. cbn [app].
  split.
  - rewrite completer_filter. unfold sort_Strings.
    apply (StronglySorted_unique_strong string_le).
    + intros a b _ _ Hab Hba. now apply string_leb_antisym.
    + apply filter_StronglySorted. apply StronglySorted_merge_sort; assumption.
    + apply StronglySorted_merge_sort; assumption.
    + now rewrite !merge_sort_Permutation.
  - intros n. rewrite completer_elem_of, sort_Strings_elem_of, HasPrefix_spec. reflexivity.
Qed.

(** ** One command from standard input *)

Lemma ReadString_line (line more : gostring) (delim : rune) :
  delim ∉ line -> ReadString (line ++ delim :: more) delim = (line ++ [delim], false).
Proof.
  induction line as [|c line IH]; intros Hnot; cbn [app ReadString].
  - now rewrite Z.eqb_refl.
  - apply not_elem_of_cons in Hnot. destruct Hnot as [Hc Hline].
    destruct (Z.eqb_spec c delim) as [-> | _]; [congruence |].
    now rewrite (IH Hline).
Qed.

Lemma ReadString_EOF (input : gostring) (delim : rune) :
  delim ∉ input -> ReadString input delim = (input, true).
Proof.
  induction input as [|c input IH]; intros Hnot; cbn [ReadString]; [reflexivity |].
  apply not_elem_of_cons in Hnot. destruct Hnot as [Hc Hinput].
  destruct (Z.eqb_spec c delim) as [-> | _]; [congruence |].
  now rewrite (IH Hinput).
Qed.

Section MainFacts.

Variable JSON : Type.
Variable json_Unmarshal : gostring -> JSON + gostring.
Variable caseLower : rune -> rune.
Variable Reply : Type.
Variable monitor_Run : QMPCommand JSON -> Reply + error.
Variable Sprintf_s : Reply -> gostring.
Variable json_MarshalIndent : Reply -> gostring + error.

Local Abbreviation executeCommand' :=
  (executeCommand JSON json_Unmarshal caseLower Reply monitor_Run Sprintf_s json_MarshalIndent).
Local Abbreviation main_piped' :=
  (main_piped JSON json_Unmarshal caseLower Reply monitor_Run Sprintf_s json_MarshalIndent).

(** X20: with standard input not a terminal, [main] runs one command,
    the first line of the input: an input with no line feed is a fatal
    error with nothing sent to the monitor; what follows the first line
    feed is never read; and in QMP mode the line feed itself is dropped
    when the quoted spans of the line are closed, so the line is
    executed as typed and the exit code is 0 exactly when a result is
    returned. *)
Theorem main_piped_first_line (hmpMode : bool) (line more : gostring) :
  10 ∉ line ->
  (piped_sent (main_piped' hmpMode line) = [] /\
   piped_exit (main_piped' hmpMode line) = ExitCode 1) /\
  main_piped' hmpMode (line ++ 10 :: more) = main_piped' hmpMode (line ++ [10]) /\
  (quotes_closed line ->
   piped_sent (main_piped' false (line ++ 10 :: more)) = sent (executeCommand' false line) /\
   (piped_exit (main_piped' false (line ++ 10 :: more)) = ExitCode 0 <->
    exists res, returned (executeCommand' false line) = Ok res)).
Proof.
  intros Hnot. split; [| split].
  - unfold main_piped. rewrite (ReadString_EOF line 10 Hnot). split; reflexivity.
  - unfold main_piped. now rewrite !(ReadString_line line _ 10 Hnot).
  - intros Hclosed. unfold main_piped. rewrite (ReadString_line line more 10 Hnot).
    assert (Hsame : executeCommand' false (line ++ [10]) = executeCommand' false line).
    { unfold executeCommand, executeCommand_build, buildQMPCommand.
      assert (H1 : Forall (fun c => Unicode.IsSpace c = true) []) by constructor.
      assert (H2 : Forall (fun c => Unicode.IsSpace c = true) [10]) by (repeat constructor).
      now rewrite <- (splitString_surrounding_spaces [] [10] line H1 H2 Hclosed). }
    rewrite Hsame.
    destruct (returned (executeCommand' false line)) as [res | err |]; cbn [piped_sent piped_exit].
    + split; [reflexivity |]. split; [intros _; now exists res | reflexivity].
    + split; [reflexivity |]. split; [discriminate | intros (res & [=])].
    + split; [reflexivity |]. split; [discriminate | intros (res & [=])].
Qed.

End MainFacts.

Lemma main_piped_first_line_witness :
  piped_sent (main_piped example_JSON example_Unmarshal example_caseLower gostring
                (fun cmd => inl (Name cmd)) (fun res => res) (fun res => inl res)
                false (str "query-status")) = [] /\
  piped_exit (main_piped example_JSON example_Unmarshal example_caseLower gostring
                (fun cmd => inl (Name cmd)) (fun res => res) (fun res => inl res)
                false (str "query-status")) = ExitCode 1.
Proof.
  apply (main_piped_first_line example_JSON example_Unmarshal example_caseLower gostring
           (fun cmd => inl (Name cmd)) (fun res => res) (fun res => inl res)
           false (str "query-status") []).
  intros Hin. apply list_elem_of_In in Hin. vm_compute in Hin. intuition discriminate.
Defined.
